(** * AB-Testing_CTR: the two-proportion Z-test notebook

    A shallow embedding of the statistical cells of [AB-Testing_CTR.ipynb]
    (counts per group, click probabilities, pooled variance, Z statistic,
    p-value, confidence interval, Cohen's d) and the properties of them
    that the specification states.

    The notebook computes on numpy [int64] and [float64] scalars.  The
    cells are written once, over an interface of the float64 operations
    they use, and read at two instances:
    - [B64], IEEE binary64 through the kernel's primitive floats, which
      runs the cells on concrete data;
    - [xreal], exact arithmetic on the reals extended with the IEEE special
      values (infinities and NaN), in which the general properties are
      proved.  Rounding error is outside this second reading.

    Reading the CSV file, the data review, the plots and the two
    [statsmodels] calls of the second approach are not part of the
    embedding; none of them changes a variable that the cells below read.
    They can end a run of the whole notebook before the statistical cells
    are reached (the count plot has colours for the click values 0 and 1
    only), so the properties below are properties of the statistical
    cells, on the data frame they are given. *)

From Stdlib Require Import ZArith List String Bool Lia.
From Stdlib Require Import Floats Uint63.
From Stdlib Require Import Reals Lra ClassicalEpsilon.
From Stdlib Require Import Permutation.
Import ListNotations.

Set Warnings "-inexact-float".

(* ================================================================= *)
(** ** numpy int64 scalars *)

Module Int64.
Local Open Scope Z_scope.

Definition modulus : Z := 2 ^ 64.
Definition min_signed : Z := - 2 ^ 63.
Definition max_signed : Z := 2 ^ 63 - 1.

(** Two's complement wrap-around of a mathematical integer. *)
Definition wrap (z : Z) : Z := (z + 2 ^ 63) mod modulus - 2 ^ 63.

Definition in_range (z : Z) : Prop := min_signed <= z <= max_signed.

Definition add (a b : Z) : Z := wrap (a + b).
Definition sub (a b : Z) : Z := wrap (a - b).

End Int64.

(* ================================================================= *)
(** ** Python exceptions *)

Inductive exn : Type :=
| KeyError (key : string)
| NameError (name : string).

Inductive result (A : Type) : Type :=
| Ok (a : A)
| Raise (e : exn).
Arguments Ok {A} a.
Arguments Raise {A} e.

Definition bind {A B : Type} (m : result A) (k : A -> result B) : result B :=
  match m with
  | Ok a => k a
  | Raise e => Raise e
  end.

Notation "x <- m ;; k" := (bind m (fun x => k))
  (at level 61, m at next level, right associativity).

(* ================================================================= *)
(** ** The float64 operations the notebook uses *)

Class Float64 (F : Type) : Type := {
  fadd : F -> F -> F;
  fsub : F -> F -> F;
  fmul : F -> F -> F;
  (** numpy's true division: a zero divisor gives an infinity or NaN (and a
      RuntimeWarning), it does not raise. *)
  fdiv : F -> F -> F;
  (** [np.sqrt]: NaN on a negative argument. *)
  fsqrt : F -> F;
  fabs : F -> F;
  (** [np.rint]: the nearest integer, ties to even. *)
  frint : F -> F;
  (** conversion of an int64 *)
  of_int : Z -> F;
  (** comparisons: both are false as soon as an operand is NaN *)
  fle : F -> F -> bool;
  flt : F -> F -> bool;
  is_nan : F -> bool
}.

(** [scipy.stats.norm]: the survival function and the percent point
    function of the standard normal distribution. *)
Class ScipyNorm (F : Type) : Type := {
  norm_sf : F -> F;
  norm_ppf : F -> F
}.

Declare Scope f64_scope.
Delimit Scope f64_scope with f64.
Infix "+" := fadd : f64_scope.
Infix "-" := fsub : f64_scope.
Infix "*" := fmul : f64_scope.
Infix "/" := fdiv : f64_scope.
Infix "<=?" := fle : f64_scope.
Infix "<?" := flt : f64_scope.

(* ================================================================= *)
(** ** The notebook *)

(** One line of [click_data.csv]. *)
Record row : Type := {
  timestamp : Z;
  user_id : Z;
  group : string;
  click : Z
}.

Definition DataFrame : Type := list row.

(** The rows of one group, [df.groupby('group')]. *)
Definition groupby (df : DataFrame) (g : string) : list row :=
  filter (fun r => String.eqb r.(group) g) df.

(** [nunique]: the number of distinct values. *)
Definition nunique (l : list Z) : Z := Z.of_nat (List.length (nodup Z.eq_dec l)).

(** [sum] of an int64 column. *)
Definition int64_sum (l : list Z) : Z := fold_left Int64.add l 0%Z.

(** A row of [dfCounts]. *)
Record counts : Type := { users : Z; clicks : Z }.

(** [dfCounts = df.groupby('group').agg({'user_id': 'nunique', 'click': 'sum'})]:
    a group without rows has no entry. *)
Definition dfCounts (df : DataFrame) (g : string) : option counts :=
  match groupby df g with
  | [] => None
  | rows => Some {| users := nunique (map user_id rows);
                    clicks := int64_sum (map click rows) |}
  end.

(** [t.loc[g, ...]] raises [KeyError] on a label that is absent. *)
Definition loc {A : Type} (t : string -> option A) (g : string) : result A :=
  match t g with
  | Some a => Ok a
  | None => Raise (KeyError g)
  end.

Section Notebook.

Context {F : Type} `{Float64 F}.
Local Open Scope f64_scope.

(** A decimal literal [m / 10^e], such as [0.05] or [0.2]. *)
Definition dec (m : Z) (e : nat) : F := of_int m / of_int (10 ^ Z.of_nat e).

(** *** The CTR table *)

Definition fsum (l : list F) : F := fold_left fadd l (of_int 0).

(** [mean] of an int64 column *)
Definition mean (x : list Z) : F :=
  fsum (map of_int x) / of_int (Z.of_nat (List.length x)).

(** [std_dev = lambda x: np.std(x, ddof = 0)] *)
Definition std_dev (x : list Z) : F :=
  let m := mean x in
  fsqrt (fsum (map (fun v => (of_int v - m) * (of_int v - m)) x)
         / of_int (Z.of_nat (List.length x))).

(** [std_err = lambda x: stats.sem(x, ddof=0)]: the standard deviation
    over the square root of the number of observations.  scipy takes a
    sample of fewer than two observations as too small and returns NaN
    for it (with a warning), whatever [ddof] is; releases that predate
    this rule computed [std / sqrt(1)] there.  NaN is written [0 / 0]. *)
Definition std_err (x : list Z) : F :=
  if (List.length x <=? 1)%nat then of_int 0 / of_int 0
  else std_dev x / fsqrt (of_int (Z.of_nat (List.length x))).

(** A row of [CTR], with the columns renamed as the notebook does. *)
Record ctr_row : Type := { CTR : F; std_deviation : F; std_error : F }.

(** [CTR = df.groupby('group')['click'].agg(['mean', std_dev, std_err])] *)
Definition CTR_table (df : DataFrame) (g : string) : option ctr_row :=
  match groupby df g with
  | [] => None
  | rows => let x := map click rows in
            Some {| CTR := mean x; std_deviation := std_dev x;
                    std_error := std_err x |}
  end.

(** *** Approach 1 *)

(** [p_con_hat = X_con / N_con], [p_exp_hat = X_exp / N_exp] *)
Definition p_hat (X N : Z) : F := of_int X / of_int N.

(** [p_pooled_hat = (X_con + X_exp) / (N_con + N_exp)] *)
Definition p_pooled_hat (X_con X_exp N_con N_exp : Z) : F :=
  of_int (Int64.add X_con X_exp) / of_int (Int64.add N_con N_exp).

(** [pooled_variance = p_pooled_hat * (1 - p_pooled_hat) * (1 / N_con + 1 / N_exp)] *)
Definition pooled_variance (p_pooled_hat : F) (N_con N_exp : Z) : F :=
  p_pooled_hat * (of_int 1 - p_pooled_hat)
  * (of_int 1 / of_int N_con + of_int 1 / of_int N_exp).

(** [SE = np.sqrt(pooled_variance)] *)
Definition SE (pooled_variance : F) : F := fsqrt pooled_variance.

(** [Test_stat = (p_con_hat - p_exp_hat) / SE] *)
Definition Test_stat (p_con_hat p_exp_hat SE : F) : F :=
  (p_con_hat - p_exp_hat) / SE.

(** [round(x, 3)] on a float64: [np.round], that is
    [rint(x * 1000) / 1000]. *)
Definition round3 (x : F) : F := frint (x * of_int 1000) / of_int 1000.

(** [CI = [round((p_exp_hat - p_con_hat) - SE * Z_crit, 3),
           round((p_exp_hat - p_con_hat) + SE * Z_crit, 3)]] *)
Definition CI (p_con_hat p_exp_hat SE Z_crit : F) : F * F :=
  (round3 ((p_exp_hat - p_con_hat) - SE * Z_crit),
   round3 ((p_exp_hat - p_con_hat) + SE * Z_crit)).

(** [lower_bound_CI = CI[0]] *)
Definition lower_bound_CI (CI : F * F) : F := fst CI.

(** [if lower_bound_CI >= delta:] *)
Definition practically_significant (lower_bound_CI delta : F) : bool :=
  delta <=? lower_bound_CI.

(** [if p_value <= alpha:] *)
Definition statistically_significant (p_value alpha : F) : bool :=
  p_value <=? alpha.

(** *** Effect size *)

(** [pooled_std_dev = np.sqrt(((N_con-1) * CTR.loc['con', 'std_deviation'] +
                               (N_exp-1) * CTR.loc['exp', 'std_deviation']) /
                              (N_con + N_exp - 2))] *)
Definition pooled_std_dev (N_con N_exp : Z) (std_con std_exp : F) : F :=
  fsqrt ((of_int (Int64.sub N_con 1) * std_con
          + of_int (Int64.sub N_exp 1) * std_exp)
         / of_int (Int64.sub (Int64.add N_con N_exp) 2)).

(** [d = (CTR.loc['exp', 'CTR'] - CTR.loc['con', 'CTR']) / pooled_std_dev] *)
Definition d (CTR_con CTR_exp pooled_std_dev : F) : F :=
  (CTR_exp - CTR_con) / pooled_std_dev.

(** The [if]/[elif] chain that assigns [effect]; there is no [else], so
    [effect] stays unbound when no test succeeds. *)
Definition effect (d : F) : option string :=
  if (of_int 0 <=? d) && (d <? dec 2 1) then Some "little or no effect"%string
  else if (dec 2 1 <=? d) && (d <? dec 5 1) then Some "small effect size"%string
  else if (dec 5 1 <=? d) && (d <? dec 8 1) then Some "medium effect size"%string
  else if dec 8 1 <=? d then Some "large effect size"%string
  else None.

(** The final [print] reads [effect]. *)
Definition read_effect (effect : option string) : result string :=
  match effect with
  | Some e => Ok e
  | None => Raise (NameError "effect")
  end.

Context `{ScipyNorm F}.

(** [Z_crit = norm.ppf(1-alpha/2)] *)
Definition Z_crit (alpha : F) : F := norm_ppf (of_int 1 - alpha / of_int 2).

(** [p_value = 2 * norm.sf(abs(Test_stat))] *)
Definition p_value (Test_stat : F) : F := of_int 2 * norm_sf (fabs Test_stat).

End Notebook.

(** *** The cells in order *)

(** The variables that Approach 1 leaves behind. *)
Record approach1 {F : Type} : Type := {
  v_X_con : Z;
  v_X_exp : Z;
  v_N_con : Z;
  v_N_exp : Z;
  v_p_con_hat : F;
  v_p_exp_hat : F;
  v_p_pooled_hat : F;
  v_pooled_variance : F;
  v_SE : F;
  v_Test_stat : F;
  v_Z_crit : F;
  v_p_value : F;
  v_significant : bool;
  v_CI : F * F;
  v_lower_bound_CI : F;
  v_practically_significant : bool
}.
Arguments approach1 : clear implicits.

(** The variables of the effect size computation. *)
Record effect_size {F : Type} : Type := {
  v_pooled_std_dev : F;
  v_d : F;
  v_effect : option string
}.
Arguments effect_size : clear implicits.

Section Cells.

Context {F : Type} `{Float64 F} `{ScipyNorm F}.

(** Approach 1 from the four counts, [alpha] and [delta]. *)
Definition run_approach1 (X_con X_exp N_con N_exp : Z) (alpha delta : F)
  : approach1 F :=
  let p_con_hat := p_hat X_con N_con in
  let p_exp_hat := p_hat X_exp N_exp in
  let p_pooled_hat := p_pooled_hat X_con X_exp N_con N_exp in
  let pooled_variance := pooled_variance p_pooled_hat N_con N_exp in
  let SE := SE pooled_variance in
  let Test_stat := Test_stat p_con_hat p_exp_hat SE in
  let Z_crit := Z_crit alpha in
  let p_value := p_value Test_stat in
  let CI := CI p_con_hat p_exp_hat SE Z_crit in
  let lower_bound_CI := lower_bound_CI CI in
  {| v_X_con := X_con; v_X_exp := X_exp; v_N_con := N_con; v_N_exp := N_exp;
     v_p_con_hat := p_con_hat; v_p_exp_hat := p_exp_hat;
     v_p_pooled_hat := p_pooled_hat; v_pooled_variance := pooled_variance;
     v_SE := SE; v_Test_stat := Test_stat; v_Z_crit := Z_crit;
     v_p_value := p_value;
     v_significant := statistically_significant p_value alpha;
     v_CI := CI; v_lower_bound_CI := lower_bound_CI;
     v_practically_significant := practically_significant lower_bound_CI delta |}.

(** The effect size from the user counts and the two rows of [CTR]. *)
Definition run_effect_size (N_con N_exp : Z) (ctr_con ctr_exp : ctr_row (F:=F))
  : effect_size F :=
  let pooled_std_dev :=
    pooled_std_dev N_con N_exp ctr_con.(std_deviation) ctr_exp.(std_deviation) in
  let d := d ctr_con.(CTR) ctr_exp.(CTR) pooled_std_dev in
  {| v_pooled_std_dev := pooled_std_dev; v_d := d; v_effect := effect d |}.

(** Approach 1 on a data frame: the counts are read with [.loc], first the
    clicks of both groups, then the users. *)
Definition approach1_of (df : DataFrame) (alpha delta : F)
  : result (approach1 F) :=
  con <- loc (dfCounts df) "con" ;;
  exp <- loc (dfCounts df) "exp" ;;
  Ok (run_approach1 con.(clicks) exp.(clicks) con.(users) exp.(users)
        alpha delta).

(** The effect size on a data frame. *)
Definition effect_size_of (df : DataFrame) : result (effect_size F) :=
  con <- loc (dfCounts df) "con" ;;
  exp <- loc (dfCounts df) "exp" ;;
  ctr_con <- loc (CTR_table df) "con" ;;
  ctr_exp <- loc (CTR_table df) "exp" ;;
  Ok (run_effect_size con.(users) exp.(users) ctr_con ctr_exp).

(** The statistical cells of the notebook, run in order on a fresh kernel:
    Approach 1, the effect size, and the last [print], which reads
    [effect]. *)
Definition notebook (df : DataFrame) (alpha delta : F)
  : result (approach1 F * effect_size F * string) :=
  a <- approach1_of df alpha delta ;;
  e <- effect_size_of df ;;
  s <- read_effect e.(v_effect) ;;
  Ok (a, e, s).

End Cells.

(** The parameters the notebook sets: [alpha = 0.05], [delta = 0.1]. *)
Definition alpha {F : Type} `{Float64 F} : F := dec 5 2.
Definition delta {F : Type} `{Float64 F} : F := dec 1 1.

(* ================================================================= *)
(** ** First reading: IEEE binary64 *)

Module B64.

Local Open Scope float_scope.

(** An int64 as a float64, rounded to nearest where it has more than 53
    significant bits. *)
Definition of_int (z : Z) : float :=
  if (z =? Int64.min_signed)%Z then (-0x1p63)
  else if (z <? 0)%Z then - PrimFloat.of_uint63 (Uint63.of_Z (- z))
  else PrimFloat.of_uint63 (Uint63.of_Z z).

(** [rint] by the 2^52 shift, which rounds to nearest, ties to even, in the
    default rounding mode. *)
Definition rint (x : float) : float :=
  if 0x1p52 <=? PrimFloat.abs x then x
  else if x =? 0 then x
  else if x <? 0 then - ((- x + 0x1p52) - 0x1p52)
  else (x + 0x1p52) - 0x1p52.

End B64.

#[global] Instance binary64 : Float64 float := {
  fadd := PrimFloat.add;
  fsub := PrimFloat.sub;
  fmul := PrimFloat.mul;
  fdiv := PrimFloat.div;
  fsqrt := PrimFloat.sqrt;
  fabs := PrimFloat.abs;
  frint := B64.rint;
  of_int := B64.of_int;
  fle := PrimFloat.leb;
  flt := PrimFloat.ltb;
  is_nan := PrimFloat.is_nan
}.

(* ================================================================= *)
(** ** Second reading: exact arithmetic with the IEEE special values *)

(** A float64 read as the real number it stands for, an infinity ([true]
    is the negative one) or NaN.  The operations follow IEEE 754 on the
    special values and are exact on the finite ones.  Zero carries no
    sign: a zero divisor is taken as [+0], which is what the notebook's
    divisors are when they vanish (a count, a square root, a sum of
    non-negative terms). *)
Inductive xreal : Type :=
| NaN
| Inf (neg : bool)
| Fin (r : R).

Module X.

Local Open Scope R_scope.

Definition Rleb (a b : R) : bool := if Rle_dec a b then true else false.
Definition Rltb (a b : R) : bool := if Rlt_dec a b then true else false.
Definition Reqb (a b : R) : bool := if Req_dec_T a b then true else false.

Definition opp (x : xreal) : xreal :=
  match x with
  | NaN => NaN
  | Inf s => Inf (negb s)
  | Fin r => Fin (- r)
  end.

Definition add (x y : xreal) : xreal :=
  match x, y with
  | NaN, _ | _, NaN => NaN
  | Inf s, Inf t => if Bool.eqb s t then Inf s else NaN
  | Inf s, Fin _ | Fin _, Inf s => Inf s
  | Fin a, Fin b => Fin (a + b)
  end.

Definition sub (x y : xreal) : xreal := add x (opp y).

(** The product of an infinity of sign [s] with the finite [r]. *)
Definition scale_inf (s : bool) (r : R) : xreal :=
  if Reqb r 0 then NaN else if Rltb r 0 then Inf (negb s) else Inf s.

Definition mul (x y : xreal) : xreal :=
  match x, y with
  | NaN, _ | _, NaN => NaN
  | Inf s, Inf t => Inf (xorb s t)
  | Inf s, Fin r | Fin r, Inf s => scale_inf s r
  | Fin a, Fin b => Fin (a * b)
  end.

Definition div (x y : xreal) : xreal :=
  match x, y with
  | NaN, _ | _, NaN => NaN
  | Inf _, Inf _ => NaN
  | Inf s, Fin r => if Rltb r 0 then Inf (negb s) else Inf s
  | Fin _, Inf _ => Fin 0
  | Fin a, Fin b =>
      if Reqb b 0 then
        if Reqb a 0 then NaN else Inf (Rltb a 0)
      else Fin (a / b)
  end.

Definition sqrt (x : xreal) : xreal :=
  match x with
  | NaN => NaN
  | Inf s => if s then NaN else Inf false
  | Fin r => if Rltb r 0 then NaN else Fin (R_sqrt.sqrt r)
  end.

Definition abs (x : xreal) : xreal :=
  match x with
  | NaN => NaN
  | Inf _ => Inf false
  | Fin r => Fin (Rabs r)
  end.

(** The integer nearest to [r], ties to even. *)
Definition nearest_even (r : R) : Z :=
  let f := Int_part r in
  let t := r - IZR f in
  if Rltb t (1 / 2) then f
  else if Rltb (1 / 2) t then (f + 1)%Z
  else if Z.even f then f else (f + 1)%Z.

Definition rint (x : xreal) : xreal :=
  match x with
  | Fin r => Fin (IZR (nearest_even r))
  | _ => x
  end.

Definition of_int (z : Z) : xreal := Fin (IZR z).

Definition leb (x y : xreal) : bool :=
  match x, y with
  | NaN, _ | _, NaN => false
  | Inf s, Inf t => s || negb t
  | Inf s, Fin _ => s
  | Fin _, Inf t => negb t
  | Fin a, Fin b => Rleb a b
  end.

Definition ltb (x y : xreal) : bool :=
  match x, y with
  | NaN, _ | _, NaN => false
  | Inf s, Inf t => s && negb t
  | Inf s, Fin _ => s
  | Fin _, Inf t => negb t
  | Fin a, Fin b => Rltb a b
  end.

Definition is_nan (x : xreal) : bool :=
  match x with
  | NaN => true
  | _ => false
  end.

(** *** The standard normal distribution *)

(** [scipy.stats.norm] is a library outside of the notebook: its functions
    are read as the mathematical functions they compute. *)

(** The density [exp(-t^2/2) / sqrt(2 pi)]. *)
Definition norm_pdf (t : R) : R := exp (- (t * t) / 2) / R_sqrt.sqrt (2 * PI).

Lemma norm_pdf_continuity : continuity norm_pdf.
Proof. unfold norm_pdf. apply derivable_continuous. reg. Qed.

Lemma norm_pdf_integrable (a b : R) : Riemann_integrable norm_pdf a b.
Proof.
  destruct (Rle_dec a b) as [Hab | Hab].
  - apply continuity_implies_RiemannInt; [exact Hab | ].
    intros; apply norm_pdf_continuity.
  - apply RiemannInt_P1, continuity_implies_RiemannInt; [lra | ].
    intros; apply norm_pdf_continuity.
Qed.

(** The distribution function: one half (the mass of the negative axis)
    plus the integral of the density from [0] to [x]. *)
Definition Phi (x : R) : R := 1 / 2 + RiemannInt (norm_pdf_integrable 0 x).

(** The quantile function: the point where [Phi] takes the value [q]. *)
Definition quantile (q : R) : R :=
  epsilon (inhabits 0) (fun x => Phi x = q).

(** [norm.cdf] *)
Definition norm_cdf (x : xreal) : xreal :=
  match x with
  | NaN => NaN
  | Inf s => if s then Fin 0 else Fin 1
  | Fin r => Fin (Phi r)
  end.

(** [norm.sf], the survival function [1 - cdf]. *)
Definition norm_sf (x : xreal) : xreal :=
  match x with
  | NaN => NaN
  | Inf s => if s then Fin 1 else Fin 0
  | Fin r => Fin (1 - Phi r)
  end.

(** [norm.ppf], the inverse of [cdf]: infinite at [0] and [1], NaN outside
    of the unit interval. *)
Definition norm_ppf (q : xreal) : xreal :=
  match q with
  | Fin r =>
      if Reqb r 0 then Inf true
      else if Reqb r 1 then Inf false
      else if Rltb 0 r && Rltb r 1 then Fin (quantile r)
      else NaN
  | _ => NaN
  end.

(** The order of float64 values as a proposition: nothing compares with
    NaN. *)
Definition le (x y : xreal) : Prop :=
  match x, y with
  | NaN, _ | _, NaN => False
  | Inf s, Inf t => s = true \/ t = false
  | Inf s, Fin _ => s = true
  | Fin _, Inf t => t = false
  | Fin a, Fin b => a <= b
  end.

(** Rounding of a real to three decimal places. *)
Definition round3 (x : R) : R := IZR (nearest_even (x * 1000)) / 1000.

End X.

#[global] Instance exact64 : Float64 xreal := {
  fadd := X.add;
  fsub := X.sub;
  fmul := X.mul;
  fdiv := X.div;
  fsqrt := X.sqrt;
  fabs := X.abs;
  frint := X.rint;
  of_int := X.of_int;
  fle := X.leb;
  flt := X.ltb;
  is_nan := X.is_nan
}.

#[global] Instance exact_norm : ScipyNorm xreal := {
  norm_sf := X.norm_sf;
  norm_ppf := X.norm_ppf
}.

(** A group of the specification: a positive number of users and a number
    of clicks between [0] and the number of users. *)
Definition valid_group (n_users n_clicks : Z) : Prop :=
  (0 < n_users /\ 0 <= n_clicks <= n_users)%Z.

(** A column of outcomes that are all 0 or 1. *)
Definition binary (x : list Z) : Prop := Forall (fun v => v = 0 \/ v = 1)%Z x.

(** The sum of a list of reals, from the left as [fsum] goes. *)
Definition Rsum (l : list R) : R := fold_left Rplus l 0%R.

(* ================================================================= *)
(** ** Sample data *)

(** A row of [click_data.csv]; the timestamp plays no part. *)
Definition mk (u : Z) (g : string) (c : Z) : row :=
  {| timestamp := 0; user_id := u; group := g; click := c |}.

(** Two users per group, nobody clicked. *)
Definition no_clicks : DataFrame :=
  [mk 1 "con" 0; mk 2 "exp" 0; mk 3 "con" 0; mk 4 "exp" 0].

(** One user per group; the control row carries the click value 2. *)
Definition double_click : DataFrame := [mk 1 "con" 2; mk 2 "exp" 1].

(** One user per group, outcomes 0 or 1; the control user has two rows
    with a click each, so the control group counts more clicks than
    users. *)
Definition repeat_click : DataFrame :=
  [mk 1 "con" 1; mk 1 "con" 1; mk 2 "exp" 0].

(* ================================================================= *)
(** ** The plot of the rejection region *)

(** The unary minus of a float64. *)
Class Float64Neg (F : Type) : Type := { fneg : F -> F }.

#[global] Instance binary64_neg : Float64Neg float := { fneg := PrimFloat.opp }.
#[global] Instance exact64_neg : Float64Neg xreal := { fneg := X.opp }.

Section Plot.
Context {F : Type} `{Float64 F} `{Float64Neg F}.
Local Open Scope f64_scope.

(** The mask of the shaded area,
    [where=(x > Z_crit) | (x< -Z_crit)], at one abscissa.  The plot
    evaluates it at the hundred points of [np.linspace(-3, 3, 100)]; the
    area that is drawn lies within these abscissas. *)
Definition rejection_region (x Z_crit : F) : bool :=
  (Z_crit <? x) || (x <? fneg Z_crit).

End Plot.

(* ================================================================= *)
(** ** Quantities of a data frame *)

(** The sum of a list of integers, without wrap-around. *)
Definition Zsum (l : list Z) : Z := fold_right Z.add 0%Z l.

(** The mean of the [click] column of a group, as a real number. *)
Definition mean_click (df : DataFrame) (g : string) : R :=
  (Rsum (map IZR (map click (groupby df g)))
   / IZR (Z.of_nat (List.length (groupby df g))))%R.

(** The number of distinct users of a group. *)
Definition n_users (df : DataFrame) (g : string) : Z :=
  nunique (map user_id (groupby df g)).

(** A user with two rows in the control group. *)
Definition repeat_visit : DataFrame :=
  [mk 1 "con" 1; mk 1 "con" 0; mk 2 "exp" 1].

(** Two users per group; the experimental group clicks less. *)
Definition exp_lower : DataFrame :=
  [mk 1 "con" 1; mk 2 "con" 1; mk 3 "exp" 0; mk 4 "exp" 1].

(** Two users per group; the experimental group clicks more. *)
Definition exp_higher : DataFrame :=
  [mk 1 "con" 0; mk 2 "con" 1; mk 3 "exp" 1; mk 4 "exp" 1].

(* ================================================================= *)
(** * Properties *)

(** Unfolding of the float64 operations at the exact reading. *)
Ltac xops :=
  cbn [fadd fsub fmul fdiv fsqrt fabs frint of_int fle flt is_nan exact64
       norm_sf norm_ppf exact_norm] in *.

(** Membership of a literal in the int64 range. *)
Ltac int64_range :=
  unfold Int64.in_range, Int64.min_signed, Int64.max_signed; lia.

(** Case analysis on the real comparisons of a goal. *)
Ltac decide_reals :=
  unfold X.Rleb, X.Rltb, X.Reqb;
  repeat match goal with
         | |- context [Rle_dec ?a ?b] => destruct (Rle_dec a b); try lra
         | |- context [Rlt_dec ?a ?b] => destruct (Rlt_dec a b); try lra
         | |- context [Req_dec_T ?a ?b] => destruct (Req_dec_T a b); try lra
         end.

(* ================================================================= *)
(** ** The exact reading *)

(** An integer of the int64 range is not changed by the wrap-around. *)
Lemma wrap_in_range (z : Z) : Int64.in_range z -> Int64.wrap z = z.
Proof.
  unfold Int64.in_range, Int64.wrap, Int64.min_signed, Int64.max_signed, Int64.modulus.
  intros Hz. rewrite Z.mod_small; lia.
Qed.

Section ExactArithmetic.
Local Open Scope R_scope.

(** *** The comparisons of reals *)

Lemma Reqb_true (a b : R) : a = b -> X.Reqb a b = true.
Proof. intros Hab. unfold X.Reqb. destruct (Req_dec_T a b); [reflexivity | contradiction]. Qed.

Lemma Reqb_false (a b : R) : a <> b -> X.Reqb a b = false.
Proof. intros Hab. unfold X.Reqb. destruct (Req_dec_T a b); [contradiction | reflexivity]. Qed.

Lemma Rltb_true (a b : R) : a < b -> X.Rltb a b = true.
Proof. intros Hab. unfold X.Rltb. destruct (Rlt_dec a b); [reflexivity | contradiction]. Qed.

Lemma Rltb_false (a b : R) : b <= a -> X.Rltb a b = false.
Proof. intros Hab. unfold X.Rltb. destruct (Rlt_dec a b); [lra | reflexivity]. Qed.

Lemma Rleb_true (a b : R) : a <= b -> X.Rleb a b = true.
Proof. intros Hab. unfold X.Rleb. destruct (Rle_dec a b); [reflexivity | contradiction]. Qed.

Lemma Rleb_false (a b : R) : b < a -> X.Rleb a b = false.
Proof. intros Hab. unfold X.Rleb. destruct (Rle_dec a b); [lra | reflexivity]. Qed.

Lemma Rleb_iff (a b : R) : X.Rleb a b = true <-> a <= b.
Proof. unfold X.Rleb. destruct (Rle_dec a b); split; intros; try easy. Qed.

(** Division and square root of finite values, away from the special
    cases. *)
Lemma xdiv_fin (a b : R) : b <> 0 -> X.div (Fin a) (Fin b) = Fin (a / b).
Proof. intros Hb. cbn. now rewrite Reqb_false. Qed.

Lemma xsqrt_fin (a : R) : 0 <= a -> X.sqrt (Fin a) = Fin (sqrt a).
Proof. intros Ha. cbn. now rewrite Rltb_false. Qed.

(** A decimal literal is the real it denotes. *)
Lemma dec_fin (m : Z) (e : nat) :
  dec m e = Fin (IZR m / IZR (10 ^ Z.of_nat e)).
Proof.
  unfold dec. xops. apply xdiv_fin. apply not_0_IZR.
  apply Z.pow_nonzero; lia.
Qed.

(** *** Changing the sign *)

Lemma xopp_involutive (x : xreal) : X.opp (X.opp x) = x.
Proof.
  destruct x as [ | s | r]; cbn; [reflexivity | now rewrite negb_involutive | ].
  now rewrite Ropp_involutive.
Qed.

Lemma xadd_comm (x y : xreal) : X.add x y = X.add y x.
Proof.
  destruct x as [ | s | a], y as [ | t | b]; cbn; try reflexivity.
  - destruct s, t; reflexivity.
  - now rewrite Rplus_comm.
Qed.

Lemma xopp_add (x y : xreal) : X.opp (X.add x y) = X.add (X.opp x) (X.opp y).
Proof.
  destruct x as [ | s | a], y as [ | t | b]; cbn; try reflexivity.
  - destruct s, t; reflexivity.
  - now rewrite Ropp_plus_distr.
Qed.

Lemma xopp_sub (x y : xreal) : X.opp (X.sub x y) = X.sub y x.
Proof.
  unfold X.sub. now rewrite xopp_add, xopp_involutive, xadd_comm.
Qed.

Lemma Rltb_opp (a : R) : a <> 0 -> X.Rltb (- a) 0 = negb (X.Rltb a 0).
Proof.
  intros Ha. unfold X.Rltb.
  destruct (Rlt_dec (- a) 0), (Rlt_dec a 0); cbn; try reflexivity; lra.
Qed.

Lemma Reqb_opp (a : R) : X.Reqb (- a) 0 = X.Reqb a 0.
Proof.
  unfold X.Reqb. destruct (Req_dec_T (- a) 0), (Req_dec_T a 0); try reflexivity; lra.
Qed.

Lemma xdiv_opp_l (x y : xreal) : X.div (X.opp x) y = X.opp (X.div x y).
Proof.
  destruct x as [ | s | a], y as [ | t | b]; cbn; try reflexivity.
  - destruct (X.Rltb b 0); reflexivity.
  - now rewrite Ropp_0.
  - rewrite Reqb_opp.
    destruct (X.Reqb b 0) eqn:Hb.
    + destruct (X.Reqb a 0) eqn:Ha; [reflexivity | ]. cbn.
      rewrite Rltb_opp; [reflexivity | ].
      unfold X.Reqb in Ha. destruct (Req_dec_T a 0); [discriminate | assumption].
    + cbn. f_equal. unfold X.Reqb in Hb.
      destruct (Req_dec_T b 0); [discriminate | ]. now field.
Qed.

Lemma xmul_opp_l (x : xreal) (c : R) :
  0 < c -> X.mul (X.opp x) (Fin c) = X.opp (X.mul x (Fin c)).
Proof.
  intros Hc. destruct x as [ | s | a]; cbn; try reflexivity.
  - unfold X.scale_inf. rewrite Reqb_false, Rltb_false by lra. reflexivity.
  - f_equal. ring.
Qed.

Lemma xabs_opp (x : xreal) : X.abs (X.opp x) = X.abs x.
Proof.
  destruct x as [ | s | a]; cbn; try reflexivity. now rewrite Rabs_Ropp.
Qed.

(** The order as a proposition is the one the boolean test decides. *)
Lemma xleb_le (x y : xreal) : X.leb x y = true <-> X.le x y.
Proof.
  destruct x as [ | s | a], y as [ | t | b]; cbn; try (split; [discriminate | contradiction]).
  - destruct s, t; cbn; intuition congruence.
  - reflexivity.
  - destruct t; cbn; intuition congruence.
  - apply Rleb_iff.
Qed.

(** *** Rounding to the nearest integer *)

Lemma Int_part_bounds (r : R) : IZR (Int_part r) <= r < IZR (Int_part r) + 1.
Proof. destruct (base_Int_part r). lra. Qed.

Lemma Int_part_unique (r : R) (z : Z) : IZR z <= r < IZR z + 1 -> Int_part r = z.
Proof. intros Hz. symmetry. apply Int_part_spec. lra. Qed.

Lemma Rabs_le_inv (a b : R) : Rabs a <= b -> - b <= a <= b.
Proof. unfold Rabs. destruct (Rcase_abs a); lra. Qed.

(** The result of [nearest_even] is within one half of its argument. *)
Lemma nearest_even_close (r : R) : Rabs (IZR (X.nearest_even r) - r) <= 1 / 2.
Proof.
  unfold X.nearest_even. pose proof (Int_part_bounds r) as Hf.
  set (f := Int_part r) in *.
  unfold X.Rltb.
  destruct (Rlt_dec (r - IZR f) (1 / 2)) as [Hlo | Hlo].
  { apply Rabs_le. lra. }
  destruct (Rlt_dec (1 / 2) (r - IZR f)) as [Hhi | Hhi].
  { rewrite plus_IZR. apply Rabs_le. lra. }
  destruct (Z.even f); [ | rewrite plus_IZR]; apply Rabs_le; lra.
Qed.

(** Rounding commutes with the change of sign: ties go to the even
    neighbour on both sides of zero. *)
Lemma nearest_even_opp (r : R) : X.nearest_even (- r) = (- X.nearest_even r)%Z.
Proof.
  pose proof (Int_part_bounds r) as Hf.
  destruct (Req_dec_T r (IZR (Int_part r))) as [Hint | Hfrac].
  - (* [r] is an integer *)
    assert (Hneg : Int_part (- r) = (- Int_part r)%Z).
    { apply Int_part_unique. rewrite opp_IZR. lra. }
    unfold X.nearest_even. rewrite Hneg, opp_IZR.
    rewrite !Rltb_true by lra. reflexivity.
  - assert (Hneg : Int_part (- r) = (- Int_part r - 1)%Z).
    { apply Int_part_unique. rewrite minus_IZR, opp_IZR. lra. }
    unfold X.nearest_even. rewrite Hneg, minus_IZR, opp_IZR.
    set (f := Int_part r) in *. unfold X.Rltb.
    destruct (Rlt_dec (r - IZR f) (1 / 2)) as [Hlo | Hlo].
    { destruct (Rlt_dec (- r - (- IZR f - 1)) (1 / 2)); [lra | ].
      destruct (Rlt_dec (1 / 2) (- r - (- IZR f - 1))); [lia | lra]. }
    destruct (Rlt_dec (1 / 2) (r - IZR f)) as [Hhi | Hhi].
    { destruct (Rlt_dec (- r - (- IZR f - 1)) (1 / 2)); [lia | lra]. }
    destruct (Rlt_dec (- r - (- IZR f - 1)) (1 / 2)); [lra | ].
    destruct (Rlt_dec (1 / 2) (- r - (- IZR f - 1))); [lra | ].
    replace (- f - 1)%Z with (- (f + 1))%Z by lia.
    rewrite Z.even_opp, Z.even_add. cbn.
    destruct (Z.even f); cbn; lia.
Qed.

(** A value more than a half above an integer, and below the next one,
    rounds to the next one. *)
Lemma nearest_even_above (r : R) (z : Z) :
  IZR z + 1 / 2 < r < IZR z + 1 -> X.nearest_even r = (z + 1)%Z.
Proof.
  intros Hr. unfold X.nearest_even.
  rewrite (Int_part_unique r z) by lra.
  rewrite Rltb_false, Rltb_true by lra. reflexivity.
Qed.

Lemma xrint_opp (x : xreal) : X.rint (X.opp x) = X.opp (X.rint x).
Proof.
  destruct x as [ | s | a]; cbn; try reflexivity.
  now rewrite nearest_even_opp, opp_IZR.
Qed.

(** *** Rounding to three decimal places *)

(** [round(x, 3)] of a finite value. *)
Lemma round3_fin (x : R) : round3 (Fin x) = Fin (X.round3 x).
Proof.
  unfold round3, X.round3. xops. cbn [X.mul X.rint X.of_int].
  apply xdiv_fin. lra.
Qed.

(** The rounded value is within 0.0005 of the exact one. *)
Lemma round3_close (x : R) : Rabs (X.round3 x - x) <= 1 / 2000.
Proof.
  unfold X.round3. pose proof (nearest_even_close (x * 1000)) as Hn.
  apply Rabs_le. apply Rabs_le_inv in Hn. lra.
Qed.

Lemma round3_opp (x : xreal) : round3 (X.opp x) = X.opp (round3 x).
Proof.
  unfold round3. xops. unfold X.of_int.
  rewrite xmul_opp_l by lra. now rewrite xrint_opp, xdiv_opp_l.
Qed.

End ExactArithmetic.

(* ================================================================= *)
(** ** The entries of the counts *)

Section Entries.

Lemma nunique_pos (l : list Z) : l <> [] -> (1 <= nunique l)%Z.
Proof.
  intros Hl. unfold nunique. destruct l as [ | x l]; [contradiction | ].
  assert (Hin : In x (nodup Z.eq_dec (x :: l))) by (apply nodup_In; now left).
  destruct (nodup Z.eq_dec (x :: l)); [contradiction | ].
  cbn [List.length]. lia.
Qed.

Lemma dfCounts_some (df : DataFrame) (g : string) (c : counts) :
  dfCounts df g = Some c ->
  groupby df g <> [] /\
  users c = nunique (map user_id (groupby df g)) /\
  clicks c = int64_sum (map click (groupby df g)).
Proof.
  unfold dfCounts. destruct (groupby df g) as [ | r rows]; [discriminate | ].
  intros Hc. injection Hc as <-. repeat split. discriminate.
Qed.

Lemma dfCounts_none (df : DataFrame) (g : string) :
  dfCounts df g = None <-> groupby df g = [].
Proof.
  unfold dfCounts. destruct (groupby df g); split; intros; congruence.
Qed.

(** An entry of the counts has at least one user. *)
Lemma dfCounts_users_pos (df : DataFrame) (g : string) (c : counts) :
  dfCounts df g = Some c -> (0 < users c)%Z.
Proof.
  intros Hc. destruct (dfCounts_some df g c Hc) as (Hne & Hu & _).
  rewrite Hu. apply Z.lt_le_trans with 1%Z; [lia | ].
  apply nunique_pos. destruct (groupby df g); [contradiction | discriminate].
Qed.

End Entries.

(* ================================================================= *)
(** ** Approach 1: the pooled Z-test *)

Section ZTest.
Local Open Scope R_scope.

Lemma p_hat_fin (X N : Z) : (0 < N)%Z -> p_hat X N = Fin (IZR X / IZR N).
Proof.
  intros HN. unfold p_hat. xops. apply xdiv_fin. apply not_0_IZR. lia.
Qed.

Lemma p_pooled_hat_fin (X_con X_exp N_con N_exp : Z) :
  (0 < N_con)%Z -> (0 < N_exp)%Z ->
  Int64.in_range (N_con + N_exp) -> Int64.in_range (X_con + X_exp) ->
  p_pooled_hat X_con X_exp N_con N_exp
  = Fin ((IZR X_con + IZR X_exp) / (IZR N_con + IZR N_exp)).
Proof.
  intros Hc He HN HX. unfold p_pooled_hat, Int64.add.
  rewrite !wrap_in_range by assumption. xops. unfold X.of_int.
  rewrite !plus_IZR. apply xdiv_fin.
  rewrite <- plus_IZR. apply not_0_IZR. lia.
Qed.

Lemma pooled_variance_fin (p : R) (N_con N_exp : Z) :
  (0 < N_con)%Z -> (0 < N_exp)%Z ->
  pooled_variance (Fin p) N_con N_exp
  = Fin (p * (1 - p) * (1 / IZR N_con + 1 / IZR N_exp)).
Proof.
  intros Hc He. unfold pooled_variance. xops. unfold X.of_int.
  rewrite !xdiv_fin by (apply not_0_IZR; lia). reflexivity.
Qed.

Lemma inv_counts_pos (N_con N_exp : Z) :
  (0 < N_con)%Z -> (0 < N_exp)%Z -> 0 < 1 / IZR N_con + 1 / IZR N_exp.
Proof.
  intros Hc He. apply IZR_lt in Hc, He.
  assert (0 < / IZR N_con) by now apply Rinv_0_lt_compat.
  assert (0 < / IZR N_exp) by now apply Rinv_0_lt_compat.
  lra.
Qed.

(** The pooled variance of two valid groups is positive unless the pooled
    click probability is 0 or 1. *)
Lemma pooled_variance_pos (X_con X_exp N_con N_exp : Z) :
  (0 < N_con)%Z -> (0 < N_exp)%Z ->
  (0 < X_con + X_exp < N_con + N_exp)%Z ->
  let p := (IZR X_con + IZR X_exp) / (IZR N_con + IZR N_exp) in
  0 < p * (1 - p) * (1 / IZR N_con + 1 / IZR N_exp).
Proof.
  intros Hc He [H0 H1] p.
  pose proof (inv_counts_pos N_con N_exp Hc He).
  apply IZR_lt in Hc, He, H0, H1.
  pose proof (plus_IZR X_con X_exp). pose proof (plus_IZR N_con N_exp).
  assert (0 < p < 1).
  { unfold p. split.
    - apply Rdiv_lt_0_compat; lra.
    - apply (Rmult_lt_reg_r (IZR N_con + IZR N_exp)); [lra | ].
      unfold Rdiv. rewrite Rmult_assoc, Rinv_l; lra. }
  apply Rmult_lt_0_compat; [ | assumption].
  apply Rmult_lt_0_compat; lra.
Qed.

(** The values of Approach 1 on counts with users in both groups and sums
    that fit in an int64. *)
Section PositiveUsers.

Variables (X_con X_exp N_con N_exp : Z) (alpha delta : xreal).
Hypothesis users_con : (0 < N_con)%Z.
Hypothesis users_exp : (0 < N_exp)%Z.
Hypothesis users_fit : Int64.in_range (N_con + N_exp).
Hypothesis clicks_fit : Int64.in_range (X_con + X_exp).

Let r := run_approach1 X_con X_exp N_con N_exp alpha delta.
Let pooled_rate := (IZR X_con + IZR X_exp) / (IZR N_con + IZR N_exp).
Let pooled_var :=
  pooled_rate * (1 - pooled_rate) * (1 / IZR N_con + 1 / IZR N_exp).

Lemma run_pooled_variance : v_pooled_variance r = Fin pooled_var.
Proof.
  unfold r, run_approach1; cbn [v_pooled_variance].
  rewrite p_pooled_hat_fin by assumption.
  apply pooled_variance_fin; assumption.
Qed.

Lemma run_SE : v_SE r = X.sqrt (Fin pooled_var).
Proof.
  pose proof run_pooled_variance as Hv.
  unfold r, run_approach1 in *; cbn [v_SE v_pooled_variance] in *.
  unfold SE. now rewrite Hv.
Qed.

Lemma run_Test_stat :
  v_Test_stat r
  = X.div (Fin (IZR X_con / IZR N_con - IZR X_exp / IZR N_exp)) (v_SE r).
Proof.
  unfold r, run_approach1; cbn [v_Test_stat v_SE].
  unfold Test_stat. now rewrite !p_hat_fin by assumption.
Qed.

(** With a positive pooled variance the standard error and the statistic
    are finite. *)
Lemma run_SE_pos : 0 < pooled_var -> v_SE r = Fin (sqrt pooled_var).
Proof. intros Hpos. rewrite run_SE. apply xsqrt_fin. lra. Qed.

Lemma run_Test_stat_pos :
  0 < pooled_var ->
  v_Test_stat r
  = Fin ((IZR X_con / IZR N_con - IZR X_exp / IZR N_exp) / sqrt pooled_var).
Proof.
  intros Hpos. rewrite run_Test_stat, run_SE_pos by assumption.
  apply xdiv_fin. apply Rgt_not_eq, sqrt_lt_R0. assumption.
Qed.

End PositiveUsers.

(** C1: for two groups with a positive number of users each (counts whose
    sums fit in an int64), Approach 1 computes the click probability of
    each group as clicks over users, the pooled probability
    [(X_con + X_exp) / (N_con + N_exp)], the pooled variance
    [p * (1 - p) * (1 / N_con + 1 / N_exp)], the standard error as its
    square root and the test statistic as the difference control minus
    experimental over the standard error.  Where the pooled variance is
    positive all of them are finite reals. *)
Theorem C1_pooled_z_test_formulas
  (X_con X_exp N_con N_exp : Z) (alpha delta : xreal) :
  (0 < N_con)%Z -> (0 < N_exp)%Z ->
  Int64.in_range (N_con + N_exp) -> Int64.in_range (X_con + X_exp) ->
  let r := run_approach1 X_con X_exp N_con N_exp alpha delta in
  let rate_con := IZR X_con / IZR N_con in
  let rate_exp := IZR X_exp / IZR N_exp in
  let pooled_rate := (IZR X_con + IZR X_exp) / (IZR N_con + IZR N_exp) in
  let pooled_var :=
    pooled_rate * (1 - pooled_rate) * (1 / IZR N_con + 1 / IZR N_exp) in
  v_p_con_hat r = Fin rate_con /\
  v_p_exp_hat r = Fin rate_exp /\
  v_p_pooled_hat r = Fin pooled_rate /\
  v_pooled_variance r = Fin pooled_var /\
  v_SE r = X.sqrt (Fin pooled_var) /\
  v_Test_stat r = X.div (Fin (rate_con - rate_exp)) (v_SE r) /\
  (0 < pooled_var ->
   v_SE r = Fin (sqrt pooled_var) /\
   v_Test_stat r = Fin ((rate_con - rate_exp) / sqrt pooled_var)).
Proof.
  intros Hc He HN HX r rate_con rate_exp pooled_rate pooled_var.
  repeat split.
  - apply p_hat_fin; assumption.
  - apply p_hat_fin; assumption.
  - apply p_pooled_hat_fin; assumption.
  - apply run_pooled_variance; assumption.
  - apply run_SE; assumption.
  - apply run_Test_stat; assumption.
  - apply run_SE_pos; assumption.
  - apply run_Test_stat_pos; assumption.
Qed.

Lemma C1_pooled_z_test_formulas_witness :
  let r := run_approach1 1580 1850 40000 40000 alpha delta in
  v_p_pooled_hat r = Fin ((1580 + 1850) / (40000 + 40000)) /\
  v_Test_stat r = X.div (Fin (1580 / 40000 - 1850 / 40000)) (v_SE r).
Proof.
  destruct (C1_pooled_z_test_formulas 1580 1850 40000 40000 alpha delta)
    as (_ & _ & Hp & _ & _ & Ht & _); [lia | lia | int64_range | int64_range | ].
  split; [exact Hp | exact Ht].
Defined.

(** *** The p-value *)

(** The survival function is one minus the distribution function. *)
Lemma sf_cdf (x : xreal) : X.norm_sf x = X.sub (Fin 1) (X.norm_cdf x).
Proof.
  destruct x as [ | s | a]; cbn; try reflexivity.
  destruct s; cbn; f_equal; lra.
Qed.

(** Half of the mass lies below zero. *)
Lemma Phi_0 : X.Phi 0 = 1 / 2.
Proof. unfold X.Phi. rewrite RiemannInt_P9. lra. Qed.

(** C2: the p-value is [2 * (1 - cdf(|Test_stat|))], where [cdf] is the
    standard normal distribution function, and the result is reported as
    statistically significant exactly when [p_value <= alpha]. *)
Theorem C2_p_value_and_significance
  (X_con X_exp N_con N_exp : Z) (alpha delta : xreal) :
  let r := run_approach1 X_con X_exp N_con N_exp alpha delta in
  v_p_value r
  = X.mul (Fin 2) (X.sub (Fin 1) (X.norm_cdf (X.abs (v_Test_stat r)))) /\
  (v_significant r = true <-> X.le (v_p_value r) alpha).
Proof.
  intros r. split.
  - unfold r, run_approach1; cbn [v_p_value v_Test_stat].
    unfold p_value. xops. now rewrite sf_cdf.
  - unfold r, run_approach1; cbn [v_p_value v_significant].
    unfold statistically_significant. xops. apply xleb_le.
Qed.

(** *** Exchanging the two groups, cell by cell *)

Lemma p_pooled_hat_swap (X_con X_exp N_con N_exp : Z) :
  p_pooled_hat (F:=xreal) X_exp X_con N_exp N_con
  = p_pooled_hat X_con X_exp N_con N_exp.
Proof.
  unfold p_pooled_hat, Int64.add.
  now rewrite (Z.add_comm X_exp), (Z.add_comm N_exp).
Qed.

Lemma pooled_variance_swap (p : xreal) (N_con N_exp : Z) :
  pooled_variance p N_exp N_con = pooled_variance p N_con N_exp.
Proof.
  unfold pooled_variance. xops. f_equal. apply xadd_comm.
Qed.

Lemma Test_stat_swap (p_con_hat p_exp_hat se : xreal) :
  Test_stat p_exp_hat p_con_hat se = X.opp (Test_stat p_con_hat p_exp_hat se).
Proof.
  unfold Test_stat. xops. now rewrite <- xdiv_opp_l, xopp_sub.
Qed.

Lemma CI_swap (p_con_hat p_exp_hat se z : xreal) :
  CI p_exp_hat p_con_hat se z
  = (X.opp (snd (CI p_con_hat p_exp_hat se z)),
     X.opp (fst (CI p_con_hat p_exp_hat se z))).
Proof.
  unfold CI. cbn [fst snd]. xops. rewrite <- !round3_opp.
  f_equal; f_equal.
  - unfold X.sub at 1. now rewrite xopp_add, xopp_sub.
  - rewrite xopp_sub. unfold X.sub at 2. rewrite xopp_sub. apply xadd_comm.
Qed.

Lemma p_value_opp (t : xreal) : p_value (X.opp t) = p_value t.
Proof. unfold p_value. xops. now rewrite xabs_opp. Qed.

(** C8: exchanging the control and the experimental group changes the
    sign of the test statistic and turns the confidence interval into its
    mirror image, whose bounds are the former bounds with the sign
    changed (the new lower bound is minus the former upper bound); the
    p-value, the critical value, the pooled probability and the standard
    error stay as they are. *)
Theorem C8_swap_control_experimental
  (X_con X_exp N_con N_exp : Z) (alpha delta : xreal) :
  let r := run_approach1 X_con X_exp N_con N_exp alpha delta in
  let r' := run_approach1 X_exp X_con N_exp N_con alpha delta in
  v_Test_stat r' = X.opp (v_Test_stat r) /\
  v_CI r' = (X.opp (snd (v_CI r)), X.opp (fst (v_CI r))) /\
  v_p_value r' = v_p_value r /\
  v_Z_crit r' = v_Z_crit r /\
  v_p_pooled_hat r' = v_p_pooled_hat r /\
  v_SE r' = v_SE r.
Proof.
  cbv zeta. unfold run_approach1.
  cbn [v_Test_stat v_CI v_p_value v_Z_crit v_p_pooled_hat v_SE].
  rewrite p_pooled_hat_swap, pooled_variance_swap.
  rewrite Test_stat_swap, p_value_opp, <- CI_swap.
  repeat split.
Qed.

(** *** A vanishing standard error *)

(** With users in both groups the standard error is zero exactly when the
    pooled click probability is 0 or 1. *)
Lemma SE_zero_iff (p : R) (N_con N_exp : Z) :
  (0 < N_con)%Z -> (0 < N_exp)%Z ->
  SE (pooled_variance (Fin p) N_con N_exp) = Fin 0 <-> p = 0 \/ p = 1.
Proof.
  intros Hc He. rewrite pooled_variance_fin by assumption.
  pose proof (inv_counts_pos N_con N_exp Hc He) as Hpos.
  set (c := 1 / IZR N_con + 1 / IZR N_exp) in *.
  unfold SE. xops. cbn [X.sqrt]. unfold X.Rltb.
  destruct (Rlt_dec (p * (1 - p) * c) 0) as [Hneg | Hnn].
  - split; [discriminate | ]. intros [-> | ->]; lra.
  - split.
    + intros Hs. injection Hs as Hs. apply sqrt_eq_0 in Hs; [ | lra].
      apply Rmult_integral in Hs. destruct Hs as [Hs | Hs]; [ | lra].
      apply Rmult_integral in Hs. destruct Hs; [left | right]; lra.
    + intros Hp. f_equal.
      replace (p * (1 - p) * c) with 0; [apply sqrt_0 | ].
      destruct Hp as [-> | ->]; ring.
Qed.

(** The pooled probability of two valid groups is 0 or 1 only when both
    groups have the same click probability (0 or 1 as well). *)
Lemma degenerate_rates (X_con X_exp N_con N_exp : Z) :
  valid_group N_con X_con -> valid_group N_exp X_exp ->
  let p := (IZR X_con + IZR X_exp) / (IZR N_con + IZR N_exp) in
  p = 0 \/ p = 1 -> IZR X_con / IZR N_con = IZR X_exp / IZR N_exp.
Proof.
  intros [Hc [Hc0 Hc1]] [He [He0 He1]] p Hp.
  apply IZR_lt in Hc, He. apply IZR_le in Hc0, Hc1, He0, He1.
  assert (Hsum : IZR X_con + IZR X_exp = p * (IZR N_con + IZR N_exp))
    by (unfold p; field; lra).
  destruct Hp as [Hp | Hp]; rewrite Hp in Hsum.
  - replace (IZR X_con) with 0 by lra. replace (IZR X_exp) with 0 by lra.
    unfold Rdiv. now rewrite !Rmult_0_l.
  - replace (IZR X_con) with (IZR N_con) by lra.
    replace (IZR X_exp) with (IZR N_exp) by lra.
    unfold Rdiv. rewrite !Rinv_r; lra.
Qed.

(** Equal click probabilities over a zero standard error: [0 / 0]. *)
Lemma Test_stat_zero_over_zero (p : R) : Test_stat (Fin p) (Fin p) (Fin 0) = NaN.
Proof.
  unfold Test_stat. xops. cbn [X.sub X.opp X.add X.div].
  rewrite !Reqb_true; [reflexivity | lra | reflexivity].
Qed.

Lemma p_value_nan : p_value (F:=xreal) NaN = NaN.
Proof. reflexivity. Qed.

Lemma significant_nan (a : xreal) : statistically_significant NaN a = false.
Proof. reflexivity. Qed.

(** With both groups in the data, Approach 1 runs to its end whatever the
    counts are. *)
Lemma approach1_of_ok (df : DataFrame) (alpha delta : xreal) (con exp : counts) :
  dfCounts df "con" = Some con -> dfCounts df "exp" = Some exp ->
  approach1_of df alpha delta
  = Ok (run_approach1 (clicks con) (clicks exp) (users con) (users exp)
          alpha delta).
Proof.
  intros Hcon Hexp. unfold approach1_of, loc. now rewrite Hcon, Hexp.
Qed.

Lemma valid_sum_in_range (X_con X_exp N_con N_exp : Z) :
  valid_group N_con X_con -> valid_group N_exp X_exp ->
  Int64.in_range (N_con + N_exp) -> Int64.in_range (X_con + X_exp).
Proof.
  unfold valid_group, Int64.in_range, Int64.min_signed, Int64.max_signed. lia.
Qed.

(** What Approach 1 computes on valid groups whose standard error is zero. *)
Lemma degenerate_run (X_con X_exp N_con N_exp : Z) (alpha delta : xreal) :
  valid_group N_con X_con -> valid_group N_exp X_exp ->
  Int64.in_range (N_con + N_exp) ->
  let r := run_approach1 X_con X_exp N_con N_exp alpha delta in
  (v_SE r = Fin 0 <-> v_p_pooled_hat r = Fin 0 \/ v_p_pooled_hat r = Fin 1) /\
  (v_SE r = Fin 0 ->
   v_Test_stat r = NaN /\ v_p_value r = NaN /\ v_significant r = false).
Proof.
  intros Vc Ve HN.
  pose proof (valid_sum_in_range _ _ _ _ Vc Ve HN) as HX.
  pose proof (degenerate_rates _ _ _ _ Vc Ve) as Hrates.
  destruct Vc as [Hc _], Ve as [He _].
  cbv zeta in *. unfold run_approach1.
  cbn [v_SE v_p_pooled_hat v_Test_stat v_p_value v_significant].
  rewrite p_pooled_hat_fin by assumption.
  rewrite !p_hat_fin by assumption.
  set (p := (IZR X_con + IZR X_exp) / (IZR N_con + IZR N_exp)) in *.
  pose proof (SE_zero_iff p N_con N_exp Hc He) as Hiff.
  split.
  - rewrite Hiff. split; (intros [Hp | Hp]; [left | right]); congruence.
  - intros Hs. rewrite Hs. apply Hiff in Hs. rewrite (Hrates Hs).
    rewrite Test_stat_zero_over_zero. repeat split.
Qed.

(** Two groups of [N] users without any click. *)
Lemma zero_clicks_run (N : Z) (alpha delta : xreal) :
  (0 < N)%Z -> Int64.in_range (N + N) ->
  let r := run_approach1 0 0 N N alpha delta in
  v_SE r = Fin 0 /\ v_Test_stat r = NaN /\ v_p_value r = NaN /\
  v_significant r = false.
Proof.
  intros HN Hfit r.
  assert (V : valid_group N 0) by (unfold valid_group; lia).
  destruct (degenerate_run 0 0 N N alpha delta V V Hfit) as [Hiff Hnan].
  assert (Hs : v_SE r = Fin 0).
  { apply Hiff. left. unfold r, run_approach1; cbn [v_p_pooled_hat].
    rewrite p_pooled_hat_fin; try assumption; [ | int64_range].
    f_equal. unfold Rdiv. rewrite Rplus_0_l. apply Rmult_0_l. }
  split; [exact Hs | exact (Hnan Hs)].
Qed.

(** Different click probabilities over a zero standard error: an infinity,
    the negative one when the control rate is the lower one. *)
Lemma Test_stat_over_zero (pc pe : R) :
  pc <> pe -> Test_stat (Fin pc) (Fin pe) (Fin 0) = Inf (X.Rltb pc pe).
Proof.
  intros Hne. unfold Test_stat. xops. cbn [X.sub X.opp X.add X.div].
  rewrite (Reqb_true 0 0) by reflexivity.
  rewrite Reqb_false by lra. f_equal.
  unfold X.Rltb. destruct (Rlt_dec (pc + - pe) 0), (Rlt_dec pc pe);
    try reflexivity; lra.
Qed.

(** The p-value of an infinite statistic. *)
Lemma p_value_inf (s : bool) : p_value (Inf s) = Fin 0.
Proof.
  unfold p_value. xops. unfold X.of_int. cbn [X.abs X.norm_sf X.mul].
  f_equal. lra.
Qed.

(** What Approach 1 computes when the standard error is zero, on any counts
    with users in both groups: the statistic is [0 / 0] when the two click
    probabilities are equal, and an infinity when they differ. *)
Lemma zero_SE_run (X_con X_exp N_con N_exp : Z) (alpha delta : xreal) :
  (0 < N_con)%Z -> (0 < N_exp)%Z ->
  Int64.in_range (N_con + N_exp) -> Int64.in_range (X_con + X_exp) ->
  let r := run_approach1 X_con X_exp N_con N_exp alpha delta in
  (v_SE r = Fin 0 <-> v_p_pooled_hat r = Fin 0 \/ v_p_pooled_hat r = Fin 1) /\
  (v_SE r = Fin 0 ->
   (v_p_con_hat r = v_p_exp_hat r ->
    v_Test_stat r = NaN /\ v_p_value r = NaN /\ v_significant r = false) /\
   (v_p_con_hat r <> v_p_exp_hat r ->
    v_Test_stat r = Inf (X.ltb (v_p_con_hat r) (v_p_exp_hat r)) /\
    v_p_value r = Fin 0 /\ v_significant r = X.leb (Fin 0) alpha)).
Proof.
  intros Hc He HN HX. cbv zeta. unfold run_approach1.
  cbn [v_SE v_p_pooled_hat v_Test_stat v_p_value v_significant
       v_p_con_hat v_p_exp_hat].
  rewrite p_pooled_hat_fin by assumption.
  rewrite !p_hat_fin by assumption.
  set (p := (IZR X_con + IZR X_exp) / (IZR N_con + IZR N_exp)) in *.
  pose proof (SE_zero_iff p N_con N_exp Hc He) as Hiff.
  split.
  - rewrite Hiff. split; (intros [Hp | Hp]; [left | right]); congruence.
  - intros Hs. rewrite Hs. split.
    + intros Heq. injection Heq as Heq.
      rewrite Heq, Test_stat_zero_over_zero. repeat split.
    + intros Hne. rewrite Test_stat_over_zero by congruence.
      rewrite p_value_inf. repeat split.
Qed.

(** C3, as the code has it: with both groups in the data (sums that fit
    in an int64) Approach 1 raises nothing.  Its standard error is zero
    exactly when the pooled click probability is 0 or 1.  For two valid
    groups the click probabilities are then equal; with equal
    probabilities the statistic is [0 / 0], NaN, the p-value is NaN and
    the result is reported as not significant.  On counts that are not
    valid the probabilities can differ; the statistic is then an
    infinity, the p-value is 0 and the result is reported as significant
    whenever [0 <= alpha]. *)
Theorem C3_zero_standard_error_yields_nan
  (df : DataFrame) (alpha delta : xreal) (con exp : counts) :
  dfCounts df "con" = Some con -> dfCounts df "exp" = Some exp ->
  Int64.in_range (users con + users exp) ->
  Int64.in_range (clicks con + clicks exp) ->
  exists r, approach1_of df alpha delta = Ok r /\
    (v_SE r = Fin 0 <-> v_p_pooled_hat r = Fin 0 \/ v_p_pooled_hat r = Fin 1) /\
    (v_SE r = Fin 0 ->
     (valid_group (users con) (clicks con) ->
      valid_group (users exp) (clicks exp) ->
      v_p_con_hat r = v_p_exp_hat r) /\
     (v_p_con_hat r = v_p_exp_hat r ->
      v_Test_stat r = NaN /\ v_p_value r = NaN /\ v_significant r = false) /\
     (v_p_con_hat r <> v_p_exp_hat r ->
      v_Test_stat r = Inf (X.ltb (v_p_con_hat r) (v_p_exp_hat r)) /\
      v_p_value r = Fin 0 /\ v_significant r = X.leb (Fin 0) alpha)).
Proof.
  intros Hcon Hexp HN HX.
  pose proof (dfCounts_users_pos _ _ _ Hcon) as Hc.
  pose proof (dfCounts_users_pos _ _ _ Hexp) as He.
  exists (run_approach1 (clicks con) (clicks exp) (users con) (users exp)
            alpha delta).
  split; [apply approach1_of_ok; assumption | ].
  pose proof (zero_SE_run _ _ _ _ alpha delta Hc He HN HX) as Hrun.
  cbv zeta in Hrun. destruct Hrun as [Hiff Hz].
  split; [exact Hiff | ]. intros Hs. destruct (Hz Hs) as [Heq Hne].
  split; [ | split; assumption].
  intros Vc Ve. apply Hiff in Hs.
  unfold run_approach1 in *.
  cbn [v_p_con_hat v_p_exp_hat v_p_pooled_hat] in *.
  rewrite p_pooled_hat_fin in Hs by assumption.
  rewrite !p_hat_fin by assumption. f_equal.
  apply degenerate_rates; try assumption.
  destruct Hs as [Hs | Hs]; injection Hs as Hs; [left | right]; exact Hs.
Qed.

Lemma C3_zero_standard_error_yields_nan_witness :
  exists r, approach1_of no_clicks alpha delta = Ok r /\
    v_SE r = Fin 0 /\ v_p_con_hat r = v_p_exp_hat r /\
    v_Test_stat r = NaN /\ v_p_value r = NaN /\ v_significant r = false.
Proof.
  destruct (C3_zero_standard_error_yields_nan no_clicks alpha delta
              {| users := 2; clicks := 0 |} {| users := 2; clicks := 0 |})
    as (r & Hr & Hiff & Hz);
    [reflexivity | reflexivity | cbn [users]; int64_range
    | cbn [clicks]; int64_range | ].
  exists r. split; [exact Hr | ].
  assert (Hs : v_SE r = Fin 0).
  { apply Hiff. left.
    rewrite (approach1_of_ok no_clicks alpha delta
               {| users := 2; clicks := 0 |} {| users := 2; clicks := 0 |})
      in Hr by reflexivity.
    injection Hr as <-. cbn [run_approach1 v_p_pooled_hat users clicks].
    rewrite p_pooled_hat_fin; [ | lia | lia | int64_range | int64_range].
    f_equal. lra. }
  destruct (Hz Hs) as (Hvalid & Heq & _).
  assert (Hrates : v_p_con_hat r = v_p_exp_hat r)
    by (apply Hvalid; cbn [users clicks]; unfold valid_group; lia).
  split; [exact Hs | split; [exact Hrates | exact (Heq Hrates)]].
Defined.

(** On [no_clicks] the claim of an error fails: Approach 1 returns, with a
    zero standard error and NaN for the statistic and the p-value. *)
Lemma C3_counterexample :
  exists r, approach1_of no_clicks alpha delta = Ok r /\
    v_SE r = Fin 0 /\
    X.is_nan (v_Test_stat r) = true /\ X.is_nan (v_p_value r) = true.
Proof.
  exists (run_approach1 0 0 2 2 alpha delta). split.
  - apply (approach1_of_ok no_clicks alpha delta
             {| users := 2; clicks := 0 |} {| users := 2; clicks := 0 |});
      reflexivity.
  - destruct (zero_clicks_run 2 alpha delta) as (Hs & Ht & Hp & _);
      [lia | int64_range | ].
    rewrite Hs, Ht, Hp. repeat split.
Qed.

(** *** Two identical groups *)

(** C9, as the code has it: two groups with the same number of users and
    the same number of clicks, strictly between zero and the number of
    users, give a test statistic of 0 and a p-value of 1, which is not
    significant at any [alpha] below 1. *)
Theorem C9_identical_groups
  (X N : Z) (a : R) (delta : xreal) :
  (0 < X < N)%Z -> Int64.in_range (N + N) -> a < 1 ->
  let r := run_approach1 X X N N (Fin a) delta in
  v_Test_stat r = Fin 0 /\ v_p_value r = Fin 1 /\ v_significant r = false.
Proof.
  intros HX HN Ha r.
  assert (HXr : Int64.in_range (X + X))
    by (unfold Int64.in_range, Int64.min_signed, Int64.max_signed in *; lia).
  assert (Hz : v_Test_stat r = Fin 0).
  { unfold r. rewrite run_Test_stat_pos; try assumption; try lia.
    - f_equal. unfold Rdiv. rewrite Rminus_diag. apply Rmult_0_l.
    - apply pooled_variance_pos; lia. }
  split; [exact Hz | ].
  unfold r, run_approach1 in *. cbn [v_Test_stat v_p_value v_significant] in *.
  rewrite Hz. unfold p_value, statistically_significant. xops.
  unfold X.of_int. cbn [X.abs X.norm_sf X.mul X.leb]. rewrite Rabs_R0, Phi_0.
  replace (2 * (1 - 1 / 2)) with 1 by lra.
  split; [reflexivity | ]. apply Rleb_false. assumption.
Qed.

Lemma C9_identical_groups_witness :
  let r := run_approach1 1 1 2 2 (Fin (5 / 100)) delta in
  v_Test_stat r = Fin 0 /\ v_p_value r = Fin 1 /\ v_significant r = false.
Proof.
  apply (C9_identical_groups 1 2 (5 / 100) delta); [lia | int64_range | lra].
Defined.

(** Ten users without a click in both groups: the statistic is NaN, not
    0, and the p-value is not 1. *)
Lemma C9_counterexample :
  let r := run_approach1 0 0 10 10 alpha delta in
  v_Test_stat r = NaN /\ v_Test_stat r <> Fin 0 /\ v_p_value r <> Fin 1.
Proof.
  destruct (zero_clicks_run 10 alpha delta) as (_ & Ht & Hp & _);
    [lia | int64_range | ].
  cbv zeta. rewrite Ht, Hp. repeat split; discriminate.
Qed.

End ZTest.

(* ================================================================= *)
(** ** The confidence interval *)

Section Interval.
Local Open Scope R_scope.

Lemma CI_fin (pc pe se z : R) :
  CI (Fin pc) (Fin pe) (Fin se) (Fin z)
  = (Fin (X.round3 ((pe - pc) - se * z)), Fin (X.round3 ((pe - pc) + se * z))).
Proof.
  unfold CI. xops. cbn [X.sub X.opp X.add X.mul].
  now rewrite !round3_fin.
Qed.

(** The critical value of a level [a] between 0 and 2 is finite. *)
Lemma Z_crit_fin (a : R) :
  0 < a < 2 -> Z_crit (Fin a) = Fin (X.quantile (1 - a / 2)).
Proof.
  intros Ha. unfold Z_crit. xops. unfold X.of_int.
  rewrite xdiv_fin by lra. cbn [X.sub X.opp X.add X.norm_ppf].
  rewrite !Reqb_false, !Rltb_true by lra. reflexivity.
Qed.

Lemma alpha_fin : alpha = Fin (5 / 100).
Proof. unfold alpha. now rewrite dec_fin. Qed.

(** C4, as the code has it: the bounds of the confidence interval are
    [(p_exp_hat - p_con_hat) -/+ SE * Z_crit] rounded to three decimal
    places, with the standard error and the critical value of the Z-test,
    and the result is reported as practically significant exactly when
    [delta] is at most the rounded lower bound. *)
Theorem C4_confidence_interval
  (X_con X_exp N_con N_exp : Z) (alpha delta : xreal) :
  let r := run_approach1 X_con X_exp N_con N_exp alpha delta in
  let diff := X.sub (v_p_exp_hat r) (v_p_con_hat r) in
  let margin := X.mul (v_SE r) (v_Z_crit r) in
  v_CI r = (round3 (X.sub diff margin), round3 (X.add diff margin)) /\
  v_Test_stat r = Test_stat (v_p_con_hat r) (v_p_exp_hat r) (v_SE r) /\
  v_Z_crit r = Z_crit alpha /\
  v_lower_bound_CI r = fst (v_CI r) /\
  (v_practically_significant r = true <-> X.le delta (fst (v_CI r))) /\
  (forall x, round3 (Fin x) = Fin (X.round3 x)
             /\ Rabs (X.round3 x - x) <= 1 / 2000).
Proof.
  cbv zeta. unfold run_approach1.
  cbn [v_CI v_Test_stat v_Z_crit v_lower_bound_CI v_practically_significant
       v_SE v_p_con_hat v_p_exp_hat].
  repeat split; try reflexivity.
  - unfold practically_significant, lower_bound_CI. xops. apply xleb_le.
  - unfold practically_significant, lower_bound_CI. xops. apply xleb_le.
  - apply round3_fin.
  - apply round3_close.
Qed.

(** One click of three users against two of three: the difference of the
    rates is 1/3, so the two exact bounds add up to 2/3, which no two
    multiples of 0.001 do; the stored bounds are not the exact ones. *)
Lemma C4_counterexample :
  let r := run_approach1 1 2 3 3 alpha delta in
  let diff := X.sub (v_p_exp_hat r) (v_p_con_hat r) in
  let margin := X.mul (v_SE r) (v_Z_crit r) in
  v_CI r <> (X.sub diff margin, X.add diff margin).
Proof.
  cbv zeta.
  assert (HN : Int64.in_range (3 + 3)) by int64_range.
  assert (HX : Int64.in_range (1 + 2)) by int64_range.
  assert (Hpc : v_p_con_hat (run_approach1 1 2 3 3 alpha delta) = Fin (1 / 3))
    by (apply p_hat_fin; lia).
  assert (Hpe : v_p_exp_hat (run_approach1 1 2 3 3 alpha delta) = Fin (2 / 3))
    by (apply p_hat_fin; lia).
  pose proof (run_SE_pos 1 2 3 3 alpha delta ltac:(lia) ltac:(lia) HN HX
                (pooled_variance_pos 1 2 3 3 ltac:(lia) ltac:(lia) ltac:(lia)))
    as Hs.
  assert (Hci : v_CI (run_approach1 1 2 3 3 alpha delta)
                = CI (v_p_con_hat (run_approach1 1 2 3 3 alpha delta))
                     (v_p_exp_hat (run_approach1 1 2 3 3 alpha delta))
                     (v_SE (run_approach1 1 2 3 3 alpha delta))
                     (v_Z_crit (run_approach1 1 2 3 3 alpha delta)))
    by reflexivity.
  assert (Hz : v_Z_crit (run_approach1 1 2 3 3 alpha delta)
               = Fin (X.quantile (1 - 5 / 100 / 2))).
  { cbn [run_approach1 v_Z_crit]. rewrite alpha_fin. apply Z_crit_fin. lra. }
  rewrite Hci, Hpc, Hpe, Hs, Hz, CI_fin. cbn [X.sub X.opp X.add X.mul].
  set (m := sqrt _ * X.quantile _).
  intros Heq. injection Heq as Hl Hu.
  unfold X.round3 in Hl, Hu.
  set (k1 := X.nearest_even _) in Hl. set (k2 := X.nearest_even _) in Hu.
  assert (Hk : (3 * (k1 + k2) = 2000)%Z).
  { apply eq_IZR. rewrite mult_IZR, plus_IZR. lra. }
  lia.
Qed.

(** A lower bound of 0.0996 against [delta = 0.1]: the rounded bound
    passes the test that the exact one fails. *)
Lemma rounding_flips_decision :
  let l := (2 / 10 - 1 / 10) - 2 / 10000 * 2 in
  practically_significant
    (lower_bound_CI (CI (Fin (1 / 10)) (Fin (2 / 10)) (Fin (2 / 10000)) (Fin 2)))
    (Fin (1 / 10)) = true /\
  X.Rleb (1 / 10) l = false.
Proof.
  cbv zeta. rewrite CI_fin. unfold lower_bound_CI, practically_significant.
  cbn [fst]. xops. cbn [X.leb]. unfold X.round3.
  rewrite (nearest_even_above _ 99) by lra.
  change (99 + 1)%Z with 100%Z.
  split; [apply Rleb_true | apply Rleb_false]; lra.
Qed.

(** C10: the bounds the notebook produces are the exact bounds rounded to
    three decimal places, each a multiple of 0.001 within 0.0005 of the
    exact one; [delta] is compared with the rounded lower bound; this
    answer differs from the one on the exact bound only when the exact
    bound and [delta] are within 0.0005 of each other, and it does differ
    for some values. *)
Theorem C10_interval_is_rounded (pc pe se z dl : R) :
  let l := (pe - pc) - se * z in
  let u := (pe - pc) + se * z in
  let ci := CI (Fin pc) (Fin pe) (Fin se) (Fin z) in
  ci = (Fin (X.round3 l), Fin (X.round3 u)) /\
  X.round3 l = IZR (X.nearest_even (l * 1000)) / 1000 /\
  X.round3 u = IZR (X.nearest_even (u * 1000)) / 1000 /\
  Rabs (X.round3 l - l) <= 5 / 10000 /\
  Rabs (X.round3 u - u) <= 5 / 10000 /\
  practically_significant (lower_bound_CI ci) (Fin dl)
  = X.Rleb dl (X.round3 l) /\
  (X.Rleb dl (X.round3 l) <> X.Rleb dl l -> Rabs (l - dl) <= 5 / 10000) /\
  (exists pc' pe' se' z' dl',
     practically_significant
       (lower_bound_CI (CI (Fin pc') (Fin pe') (Fin se') (Fin z'))) (Fin dl')
     <> X.Rleb dl' ((pe' - pc') - se' * z')).
Proof.
  intros l u ci.
  pose proof (round3_close l) as Hl. pose proof (round3_close u) as Hu.
  assert (Hci : ci = (Fin (X.round3 l), Fin (X.round3 u))) by apply CI_fin.
  repeat split; try reflexivity; try assumption; try lra.
  - rewrite Hci. reflexivity.
  - apply Rabs_le_inv in Hl. intros Hdiff. apply Rabs_le.
    revert Hdiff. decide_reals; try congruence; intros _; lra.
  - destruct rounding_flips_decision as [Hr He].
    exists (1 / 10), (2 / 10), (2 / 10000), 2, (1 / 10).
    rewrite Hr, He. discriminate.
Qed.

Lemma C10_interval_is_rounded_witness :
  Rabs ((2 / 10 - 1 / 10 - 2 / 10000 * 2) - 1 / 10) <= 5 / 10000.
Proof.
  destruct (C10_interval_is_rounded (1 / 10) (2 / 10) (2 / 10000) 2 (1 / 10))
    as (_ & _ & _ & _ & _ & Hd & Hnear & _).
  apply Hnear. rewrite <- Hd.
  destruct rounding_flips_decision as [Hr He]. rewrite Hr, He. discriminate.
Defined.

End Interval.

(* ================================================================= *)
(** ** The counts and the CTR table *)

Section Counts.
Local Open Scope R_scope.

(** What Approach 1 computes on [repeat_click]: a zero standard error
    under different click probabilities, an infinite statistic and a
    result that is reported as significant. *)
Lemma repeat_click_run :
  let r := run_approach1 2 0 1 1 alpha delta in
  v_p_con_hat r = Fin 2 /\ v_SE r = Fin 0 /\ v_Test_stat r = Inf false /\
  v_p_value r = Fin 0 /\ v_significant r = true.
Proof.
  assert (HN : Int64.in_range (1 + 1)) by int64_range.
  assert (HX : Int64.in_range (2 + 0)) by int64_range.
  pose proof (zero_SE_run 2 0 1 1 alpha delta) as Hrun. cbv zeta in *.
  destruct Hrun as [Hiff Hz]; [lia | lia | exact HN | exact HX | ].
  assert (Hc : v_p_con_hat (run_approach1 2 0 1 1 alpha delta) = Fin 2).
  { cbn [run_approach1 v_p_con_hat]. rewrite p_hat_fin by lia. f_equal. lra. }
  assert (He : v_p_exp_hat (run_approach1 2 0 1 1 alpha delta) = Fin 0).
  { cbn [run_approach1 v_p_exp_hat]. rewrite p_hat_fin by lia. f_equal. lra. }
  assert (Hs : v_SE (run_approach1 2 0 1 1 alpha delta) = Fin 0).
  { apply Hiff. right. cbn [run_approach1 v_p_pooled_hat].
    rewrite p_pooled_hat_fin; [ | lia | lia | exact HN | exact HX].
    f_equal. lra. }
  destruct (Hz Hs) as [_ Hne]. rewrite Hc, He in Hne.
  destruct Hne as (Ht & Hp & Hsig).
  - intros E. injection E as E. lra.
  - split; [exact Hc | split; [exact Hs | split; [ | split; [exact Hp | ]]]].
    + rewrite Ht. cbn [X.ltb]. now rewrite Rltb_false by lra.
    + rewrite Hsig, alpha_fin. cbn [X.leb]. apply Rleb_true. lra.
Qed.

(** C7, as the code has it: the counts are built without any check.  A
    group has an entry exactly when it has a row, with the number of its
    distinct users (at least one) and the sum of its click values,
    whatever these are.  The cells of Approach 1 check nothing either:
    they read the two entries and run to their end on them, and raise
    [KeyError] when a group has no entry. *)
Theorem C7_counts_are_not_validated (df : DataFrame) (alpha delta : xreal) :
  (forall g, dfCounts df g = None <-> groupby df g = []) /\
  (forall g c, dfCounts df g = Some c ->
     (1 <= users c)%Z /\
     users c = nunique (map user_id (groupby df g)) /\
     clicks c = int64_sum (map click (groupby df g))) /\
  approach1_of df alpha delta
  = match dfCounts df "con", dfCounts df "exp" with
    | Some con, Some exp =>
        Ok (run_approach1 (clicks con) (clicks exp) (users con) (users exp)
              alpha delta)
    | None, _ => Raise (KeyError "con")
    | Some _, None => Raise (KeyError "exp")
    end.
Proof.
  split; [intros g; apply dfCounts_none | split].
  - intros g c Hc. destruct (dfCounts_some df g c Hc) as (Hne & Hu & Hx).
    repeat split; try assumption. rewrite Hu. apply nunique_pos.
    destruct (groupby df g); [contradiction | discriminate].
  - unfold approach1_of, loc.
    destruct (dfCounts df "con"), (dfCounts df "exp"); reflexivity.
Qed.

Lemma C7_counts_are_not_validated_witness :
  approach1_of repeat_click alpha delta
  = Ok (run_approach1 2 0 1 1 alpha delta).
Proof.
  exact (proj2 (proj2 (C7_counts_are_not_validated repeat_click alpha delta))).
Defined.

(** On [repeat_click] every outcome is 0 or 1 and the control group has
    one user and two clicks: the entry is built, the click probability is
    2, the standard error is 0, the statistic is infinite, the p-value is
    0 and the result is reported as significant, without any error. *)
Lemma C7_counterexample :
  dfCounts repeat_click "con" = Some {| users := 1; clicks := 2 |} /\
  exists r, approach1_of repeat_click alpha delta = Ok r /\
    v_p_con_hat r = Fin 2 /\ v_SE r = Fin 0 /\ v_Test_stat r = Inf false /\
    v_p_value r = Fin 0 /\ v_significant r = true.
Proof.
  split; [reflexivity | ].
  exists (run_approach1 2 0 1 1 alpha delta). split.
  - apply (approach1_of_ok repeat_click alpha delta
             {| users := 1; clicks := 2 |} {| users := 1; clicks := 0 |});
      reflexivity.
  - apply repeat_click_run.
Qed.

(** *** The columns of the CTR table *)

Lemma fold_add_fin (l : list R) (a : R) :
  fold_left X.add (map Fin l) (Fin a) = Fin (fold_left Rplus l a).
Proof.
  revert a. induction l as [ | b l IH]; intros a; cbn; [reflexivity | apply IH].
Qed.

Lemma fsum_fin (l : list R) : fsum (map Fin l) = Fin (Rsum l).
Proof. unfold fsum. xops. apply fold_add_fin. Qed.

Lemma fold_Rplus_shift (l : list R) (a : R) :
  fold_left Rplus l a = a + fold_left Rplus l 0.
Proof.
  revert a. induction l as [ | b l IH]; intros a; cbn; [lra | ].
  rewrite (IH (a + b)), (IH (0 + b)). lra.
Qed.

Lemma Rsum_cons (b : R) (l : list R) : Rsum (b :: l) = b + Rsum l.
Proof. unfold Rsum. cbn. rewrite fold_Rplus_shift. lra. Qed.

Lemma Rsum_nonneg (l : list R) : Forall (fun b => 0 <= b) l -> 0 <= Rsum l.
Proof.
  induction 1 as [ | b l Hb _ IH]; [unfold Rsum; cbn; lra | ].
  rewrite Rsum_cons. lra.
Qed.

Lemma length_pos (A : Type) (x : list A) :
  x <> [] -> 0 < IZR (Z.of_nat (List.length x)).
Proof.
  intros Hx. apply IZR_lt. destruct x; [contradiction | cbn [List.length]; lia].
Qed.

(** The mean of a column that is not empty. *)
Lemma mean_fin (x : list Z) :
  x <> [] ->
  mean x = Fin (Rsum (map IZR x) / IZR (Z.of_nat (List.length x))).
Proof.
  intros Hx. unfold mean. xops.
  change (map X.of_int x) with (map (fun v => Fin (IZR v)) x).
  rewrite <- (map_map IZR Fin), fsum_fin.
  apply xdiv_fin. pose proof (length_pos _ x Hx). lra.
Qed.

(** The standard deviation of a column that is not empty: the sum of
    squares is never negative, so the square root is taken of a finite,
    non-negative real. *)
Lemma std_dev_fin (x : list Z) :
  x <> [] ->
  let m := Rsum (map IZR x) / IZR (Z.of_nat (List.length x)) in
  std_dev x
  = Fin (sqrt (Rsum (map (fun v => (IZR v - m) * (IZR v - m)) x)
               / IZR (Z.of_nat (List.length x)))).
Proof.
  intros Hx m. unfold std_dev. rewrite (mean_fin x Hx). fold m. xops.
  rewrite (map_ext _ (fun v => Fin ((IZR v - m) * (IZR v - m))))
    by reflexivity.
  rewrite <- (map_map (fun v => (IZR v - m) * (IZR v - m)) Fin), fsum_fin.
  pose proof (length_pos _ x Hx) as Hn.
  unfold X.of_int. rewrite xdiv_fin by lra. apply xsqrt_fin.
  apply Rmult_le_pos; [ | left; now apply Rinv_0_lt_compat].
  apply Rsum_nonneg. rewrite Forall_map. apply Forall_forall.
  intros v _. apply Rle_0_sqr.
Qed.

(** *** Well-formed data: one row per user, clicks 0 or 1 *)

Lemma nunique_NoDup (l : list Z) :
  NoDup l -> nunique l = Z.of_nat (List.length l).
Proof. intros Hl. unfold nunique. now rewrite nodup_fixed_point. Qed.

Lemma fold_int64_add_binary (x : list Z) (a : Z) :
  binary x -> (0 <= a)%Z ->
  (a + Z.of_nat (List.length x) <= Int64.max_signed)%Z ->
  fold_left Int64.add x a = fold_left Z.add x a /\
  (a <= fold_left Z.add x a <= a + Z.of_nat (List.length x))%Z.
Proof.
  intros Hx. revert a. induction Hx as [ | v x Hv _ IH]; intros a Ha Hmax.
  - cbn. lia.
  - cbn [fold_left List.length] in *.
    assert (Hadd : Int64.add a v = (a + v)%Z).
    { unfold Int64.add. apply wrap_in_range.
      unfold Int64.in_range, Int64.min_signed, Int64.max_signed in *. lia. }
    rewrite Hadd. destruct (IH (a + v)%Z) as [Heq Hb]; [lia | lia | ].
    split; [exact Heq | lia].
Qed.

Lemma IZR_fold_add (x : list Z) (a : Z) :
  IZR (fold_left Z.add x a) = fold_left Rplus (map IZR x) (IZR a).
Proof.
  revert a. induction x as [ | v x IH]; intros a; cbn; [reflexivity | ].
  now rewrite IH, plus_IZR.
Qed.

(** The squared deviations of a 0/1 column from any [m]. *)
Lemma Rsum_sq_binary (x : list Z) (m : R) :
  binary x ->
  Rsum (map (fun v => (IZR v - m) * (IZR v - m)) x)
  = Rsum (map IZR x) * (1 - 2 * m) + IZR (Z.of_nat (List.length x)) * (m * m).
Proof.
  induction 1 as [ | v x Hv _ IH].
  - unfold Rsum. cbn. lra.
  - cbn [map List.length]. rewrite !Rsum_cons, IH, Nat2Z.inj_succ, succ_IZR.
    destruct Hv as [-> | ->]; lra.
Qed.

(** On well-formed data the entry of a group is a valid group, the [CTR]
    column is the click probability of Approach 1, clicks over users, and
    the standard deviation is [sqrt(rate * (1 - rate))]. *)
Lemma well_formed_group (df : DataFrame) (g : string) :
  let rows := groupby df g in
  rows <> [] ->
  NoDup (map user_id rows) -> binary (map click rows) ->
  (Z.of_nat (List.length rows) <= Int64.max_signed)%Z ->
  exists c t,
    dfCounts df g = Some c /\ CTR_table df g = Some t /\
    valid_group (users c) (clicks c) /\
    let rate := IZR (clicks c) / IZR (users c) in
    CTR t = Fin rate /\ p_hat (clicks c) (users c) = Fin rate /\
    std_deviation t = Fin (sqrt (rate * (1 - rate))).
Proof.
  intros rows Hne Hnd Hbin Hmax.
  assert (Hx : map click rows <> []) by (destruct rows; [contradiction | discriminate]).
  assert (Hlen : List.length (map click rows) = List.length rows) by apply length_map.
  destruct (fold_int64_add_binary (map click rows) 0 Hbin) as [Hsum Hb];
    [lia | rewrite Hlen; lia | ].
  rewrite Hlen in Hb.
  assert (Hu : nunique (map user_id rows) = Z.of_nat (List.length rows))
    by (rewrite nunique_NoDup, length_map; [reflexivity | assumption]).
  assert (Hpos : (0 < Z.of_nat (List.length rows))%Z)
    by (destruct rows; [contradiction | cbn [List.length]; lia]).
  exists {| users := nunique (map user_id rows);
            clicks := int64_sum (map click rows) |}.
  exists {| CTR := mean (map click rows);
            std_deviation := std_dev (map click rows);
            std_error := std_err (map click rows) |}.
  assert (HS : IZR (int64_sum (map click rows)) = Rsum (map IZR (map click rows))).
  { unfold int64_sum. rewrite Hsum. apply IZR_fold_add. }
  assert (Hn : 0 < IZR (Z.of_nat (List.length rows))) by now apply IZR_lt.
  cbn [users clicks CTR std_deviation]. rewrite Hu.
  repeat split.
  - unfold dfCounts. fold rows. destruct rows; [contradiction | ].
    now rewrite Hu.
  - unfold CTR_table. fold rows. destruct rows; [contradiction | reflexivity].
  - exact Hpos.
  - unfold int64_sum. rewrite Hsum. lia.
  - unfold int64_sum. rewrite Hsum. lia.
  - rewrite mean_fin, Hlen, HS by assumption. reflexivity.
  - apply p_hat_fin. exact Hpos.
  - rewrite (std_dev_fin _ Hx). cbv zeta. rewrite Hlen, Rsum_sq_binary by assumption.
    rewrite Hlen, <- HS. f_equal. f_equal. field. lra.
Qed.

End Counts.

(* ================================================================= *)
(** ** The effect size *)

Section EffectSize.
Local Open Scope R_scope.

(** C5: with more than two users in all and a pooled standard deviation
    that is not zero, the pooled standard deviation is the square root of
    [((N_con - 1) * std_con + (N_exp - 1) * std_exp) / (N_con + N_exp - 2)],
    a blend of the standard deviations themselves and not of their
    squares, and Cohen's d is the difference of the [CTR] column,
    experimental minus control, over it. *)
Theorem C5_cohens_d
  (N_con N_exp : Z) (rate_con rate_exp std_con std_exp : R)
  (err_con err_exp : xreal) :
  (0 <= N_con)%Z -> (0 <= N_exp)%Z -> (2 < N_con + N_exp)%Z ->
  Int64.in_range (N_con + N_exp) ->
  let pooled :=
    sqrt (((IZR N_con - 1) * std_con + (IZR N_exp - 1) * std_exp)
          / (IZR N_con + IZR N_exp - 2)) in
  pooled <> 0 ->
  let e := run_effect_size N_con N_exp
             {| CTR := Fin rate_con; std_deviation := Fin std_con;
                std_error := err_con |}
             {| CTR := Fin rate_exp; std_deviation := Fin std_exp;
                std_error := err_exp |} in
  v_pooled_std_dev e = Fin pooled /\
  v_d e = Fin ((rate_exp - rate_con) / pooled).
Proof.
  intros Hc He Hsum HN pooled Hnz e.
  assert (Hp : v_pooled_std_dev e = Fin pooled).
  { unfold e, run_effect_size; cbn [v_pooled_std_dev std_deviation].
    unfold pooled_std_dev, Int64.sub, Int64.add.
    unfold Int64.in_range, Int64.min_signed, Int64.max_signed in HN.
    rewrite (wrap_in_range (N_con + N_exp))
      by (unfold Int64.in_range, Int64.min_signed, Int64.max_signed; lia).
    rewrite !wrap_in_range
      by (unfold Int64.in_range, Int64.min_signed, Int64.max_signed; lia).
    xops. unfold X.of_int. cbn [X.mul X.add].
    rewrite xdiv_fin by (apply not_0_IZR; lia).
    rewrite !minus_IZR, plus_IZR.
    apply xsqrt_fin.
    destruct (Rle_dec 0 (((IZR N_con - 1) * std_con + (IZR N_exp - 1) * std_exp)
                         / (IZR N_con + IZR N_exp - 2))) as [Hge | Hlt];
      [exact Hge | ].
    exfalso. apply Hnz. unfold pooled. apply sqrt_neg_0. lra. }
  split; [exact Hp | ].
  unfold e, run_effect_size in *; cbn [v_pooled_std_dev v_d std_deviation CTR] in *.
  rewrite Hp. unfold d. xops. cbn [X.sub X.opp X.add].
  apply xdiv_fin. exact Hnz.
Qed.

(** The pooled value for 40000 users per group and standard deviations
    of 0.195 and 0.21: the square root of 0.2025. *)
Lemma pooled_scenario :
  sqrt (((40000 - 1) * (195 / 1000) + (40000 - 1) * (210 / 1000))
        / (40000 + 40000 - 2)) = 45 / 100.
Proof.
  replace (((40000 - 1) * (195 / 1000) + (40000 - 1) * (210 / 1000))
           / (40000 + 40000 - 2)) with ((45 / 100) * (45 / 100)) by lra.
  apply sqrt_square. lra.
Qed.

Lemma C5_cohens_d_witness :
  let e := run_effect_size 40000 40000
             {| CTR := Fin (395 / 10000); std_deviation := Fin (195 / 1000);
                std_error := NaN |}
             {| CTR := Fin (4625 / 100000); std_deviation := Fin (210 / 1000);
                std_error := NaN |} in
  v_pooled_std_dev e = Fin (45 / 100) /\ v_d e = Fin (15 / 1000).
Proof.
  destruct (C5_cohens_d 40000 40000 (395 / 10000) (4625 / 100000)
              (195 / 1000) (210 / 1000) NaN NaN) as [Hp Hd];
    [lia | lia | lia | int64_range | rewrite pooled_scenario; lra | ].
  cbv zeta. rewrite Hp, Hd, pooled_scenario. split; f_equal; lra.
Defined.

(** The bucket of a finite, non-negative [d]. *)
Lemma effect_fin (x : R) :
  effect (Fin x)
  = if X.Rleb 0 x && X.Rltb x (2 / 10) then Some "little or no effect"%string
    else if X.Rleb (2 / 10) x && X.Rltb x (5 / 10) then Some "small effect size"%string
    else if X.Rleb (5 / 10) x && X.Rltb x (8 / 10) then Some "medium effect size"%string
    else if X.Rleb (8 / 10) x then Some "large effect size"%string
    else None.
Proof.
  unfold effect. rewrite !dec_fin. xops.
  change (10 ^ Z.of_nat 1)%Z with 10%Z. reflexivity.
Qed.

(** No branch of the chain takes a negative [d]. *)
Lemma effect_negative (x : R) : x < 0 -> effect (Fin x) = None.
Proof. intros Hx. rewrite effect_fin. decide_reals. reflexivity. Qed.

Lemma effect_nan : effect (F:=xreal) NaN = None.
Proof. unfold effect. rewrite !dec_fin. reflexivity. Qed.

(** C6, as the code has it: a non-negative [d] below 0.2 is of little or
    no effect, from 0.2 and below 0.5 it is a small effect, from 0.5 and
    below 0.8 a medium one, from 0.8 on a large one, every lower bound
    included. *)
Theorem C6_effect_buckets (x : R) :
  (0 <= x < 2 / 10 -> effect (Fin x) = Some "little or no effect"%string) /\
  (2 / 10 <= x < 5 / 10 -> effect (Fin x) = Some "small effect size"%string) /\
  (5 / 10 <= x < 8 / 10 -> effect (Fin x) = Some "medium effect size"%string) /\
  (8 / 10 <= x -> effect (Fin x) = Some "large effect size"%string).
Proof.
  rewrite effect_fin.
  repeat split; intros Hx; decide_reals; reflexivity.
Qed.

Lemma C6_effect_buckets_witness :
  effect (Fin (2 / 10)) = Some "small effect size"%string /\
  effect (Fin (5 / 10)) = Some "medium effect size"%string /\
  effect (Fin (8 / 10)) = Some "large effect size"%string.
Proof.
  repeat split.
  - apply (proj1 (proj2 (C6_effect_buckets (2 / 10)))). lra.
  - apply (proj1 (proj2 (proj2 (C6_effect_buckets (5 / 10))))). lra.
  - apply (proj2 (proj2 (proj2 (C6_effect_buckets (8 / 10))))). lra.
Defined.

(** [d = -0.1] is below 0.2 and gets no category. *)
Lemma C6_counterexample :
  - 1 / 10 < 2 / 10 /\
  effect (Fin (- 1 / 10)) = None /\
  effect (Fin (- 1 / 10)) <> Some "little or no effect"%string.
Proof.
  assert (Hn : effect (Fin (- 1 / 10)) = None) by (apply effect_negative; lra).
  rewrite Hn. repeat split; [lra | discriminate].
Qed.

(** *** The whole notebook on data without clicks *)

Lemma mean_zeros : mean (F:=xreal) [0; 0]%Z = Fin 0.
Proof.
  rewrite mean_fin by discriminate. f_equal. unfold Rsum. cbn. lra.
Qed.

Lemma std_dev_zeros : std_dev (F:=xreal) [0; 0]%Z = Fin 0.
Proof.
  rewrite std_dev_fin by discriminate. cbv zeta. f_equal.
  unfold Rsum. cbn.
  replace ((0 + 0 + 0) / 2) with 0 by lra.
  replace ((0 + (0 - 0) * (0 - 0) + (0 - 0) * (0 - 0)) / 2) with 0 by lra.
  apply sqrt_0.
Qed.

(** Without any click both standard deviations are zero, so is the pooled
    one, [d] is [0 / 0] and no branch assigns [effect]: the last [print]
    fails. *)
Lemma notebook_no_clicks :
  notebook no_clicks alpha delta = Raise (NameError "effect").
Proof.
  unfold notebook.
  rewrite (approach1_of_ok no_clicks alpha delta
             {| users := 2; clicks := 0 |} {| users := 2; clicks := 0 |})
    by reflexivity.
  cbn [bind]. unfold effect_size_of, loc.
  change (dfCounts no_clicks "con") with (Some {| users := 2; clicks := 0 |}).
  change (dfCounts no_clicks "exp") with (Some {| users := 2; clicks := 0 |}).
  change (CTR_table (F:=xreal) no_clicks "con")
    with (Some {| CTR := mean (F:=xreal) [0; 0]%Z;
                  std_deviation := std_dev [0; 0]%Z;
                  std_error := std_err [0; 0]%Z |}).
  change (CTR_table (F:=xreal) no_clicks "exp")
    with (Some {| CTR := mean (F:=xreal) [0; 0]%Z;
                  std_deviation := std_dev [0; 0]%Z;
                  std_error := std_err [0; 0]%Z |}).
  cbn [bind users]. unfold run_effect_size.
  cbn [v_effect std_deviation CTR]. rewrite mean_zeros, std_dev_zeros.
  assert (Hp : pooled_std_dev 2 2 (Fin 0) (Fin 0) = Fin 0).
  { unfold pooled_std_dev.
    change (Int64.sub 2 1) with 1%Z.
    change (Int64.sub (Int64.add 2 2) 2) with 2%Z.
    xops. unfold X.of_int. cbn [X.mul X.add].
    rewrite xdiv_fin, xsqrt_fin by lra. f_equal.
    replace ((1 * 0 + 1 * 0) / 2) with 0 by lra. apply sqrt_0. }
  rewrite Hp.
  change (d (Fin 0) (Fin 0) (Fin 0)) with (Test_stat (Fin 0) (Fin 0) (Fin 0)).
  rewrite Test_stat_zero_over_zero, effect_nan. reflexivity.
Qed.

End EffectSize.

(* ================================================================= *)
(** ** The counts: order of the rows *)

Section RowOrder.

Lemma wrap_add_l (x y : Z) : Int64.wrap (Int64.wrap x + y) = Int64.wrap (x + y).
Proof.
  unfold Int64.wrap, Int64.modulus. f_equal.
  replace ((x + 2 ^ 63) mod 2 ^ 64 - 2 ^ 63 + y + 2 ^ 63)%Z
    with ((x + 2 ^ 63) mod 2 ^ 64 + y)%Z by lia.
  rewrite Zplus_mod_idemp_l. f_equal. lia.
Qed.

Lemma fold_int64_add_wrap (l : list Z) (a : Z) :
  fold_left Int64.add l (Int64.wrap a) = Int64.wrap (a + Zsum l).
Proof.
  unfold Zsum. revert a.
  induction l as [ | v l IH]; intros a; cbn [fold_left fold_right].
  - now rewrite Z.add_0_r.
  - replace (Int64.add (Int64.wrap a) v) with (Int64.wrap (a + v))
      by (unfold Int64.add; now rewrite wrap_add_l).
    rewrite IH. f_equal. lia.
Qed.

(** The int64 sum of a column is the mathematical sum, wrapped once. *)
Lemma int64_sum_wrap (l : list Z) : int64_sum l = Int64.wrap (Zsum l).
Proof.
  unfold int64_sum. change 0%Z with (Int64.wrap 0) at 1.
  now rewrite fold_int64_add_wrap.
Qed.

Lemma Zsum_Permutation (l l' : list Z) : Permutation l l' -> Zsum l = Zsum l'.
Proof.
  unfold Zsum. induction 1; cbn [fold_right] in *; lia.
Qed.

Lemma nunique_Permutation (l l' : list Z) :
  Permutation l l' -> nunique l = nunique l'.
Proof.
  intros Hp. unfold nunique. f_equal. apply Permutation_length.
  apply NoDup_Permutation; try apply NoDup_nodup.
  intros x. rewrite !nodup_In. split; apply Permutation_in; [ | symmetry]; exact Hp.
Qed.

Lemma groupby_Permutation (df df' : DataFrame) (g : string) :
  Permutation df df' -> Permutation (groupby df g) (groupby df' g).
Proof.
  unfold groupby. induction 1 as [ | r l l' _ IH | r r' l | l l' l'' _ IH1 _ IH2];
    cbn [filter].
  - constructor.
  - destruct (String.eqb (group r) g); [now constructor | exact IH].
  - destruct (String.eqb (group r) g), (String.eqb (group r') g);
      try apply Permutation_refl; constructor.
  - now transitivity (filter (fun r => String.eqb (group r) g) l').
Qed.

(** X1: the entry of a group in [dfCounts] does not depend on the order of
    the rows of the data frame, wrap-around of the click sum included. *)
Theorem counts_do_not_depend_on_row_order (df df' : DataFrame) (g : string) :
  Permutation df df' -> dfCounts df g = dfCounts df' g.
Proof.
  intros Hp. apply (groupby_Permutation _ _ g) in Hp. unfold dfCounts.
  assert (Hu : nunique (map user_id (groupby df g))
               = nunique (map user_id (groupby df' g)))
    by (apply nunique_Permutation, Permutation_map, Hp).
  assert (Hc : int64_sum (map click (groupby df g))
               = int64_sum (map click (groupby df' g))).
  { rewrite !int64_sum_wrap. f_equal.
    apply Zsum_Permutation, Permutation_map, Hp. }
  destruct (groupby df g) as [ | r rows] eqn:E, (groupby df' g) as [ | r' rows'] eqn:E'.
  - reflexivity.
  - apply Permutation_nil in Hp. discriminate.
  - symmetry in Hp. apply Permutation_nil in Hp. discriminate.
  - now rewrite Hu, Hc.
Qed.

Lemma counts_do_not_depend_on_row_order_witness :
  dfCounts double_click "con" = dfCounts (rev double_click) "con".
Proof.
  apply counts_do_not_depend_on_row_order. apply Permutation_rev.
Defined.
End RowOrder.

(* ================================================================= *)
(** ** The two click rates *)

Section Denominators.
Local Open Scope R_scope.

Lemma nunique_le_length (l : list Z) : (nunique l <= Z.of_nat (List.length l))%Z.
Proof.
  unfold nunique. apply inj_le. apply NoDup_incl_length; [apply NoDup_nodup | ].
  intros x Hx. now apply nodup_In in Hx.
Qed.

Lemma nunique_eq_length_iff (l : list Z) :
  nunique l = Z.of_nat (List.length l) <-> NoDup l.
Proof.
  split; [ | apply nunique_NoDup].
  unfold nunique. intros Hlen. apply Nat2Z.inj in Hlen.
  apply (NoDup_incl_NoDup (l := nodup Z.eq_dec l)).
  - apply NoDup_nodup.
  - lia.
  - intros x Hx. now apply nodup_In in Hx.
Qed.

Lemma Rsum_binary_bounds (x : list Z) :
  binary x -> 0 <= Rsum (map IZR x) <= IZR (Z.of_nat (List.length x)).
Proof.
  induction 1 as [ | v x Hv _ IH].
  - unfold Rsum. cbn. lra.
  - cbn [map List.length]. rewrite Rsum_cons, Nat2Z.inj_succ, succ_IZR.
    destruct Hv as [-> | ->]; lra.
Qed.

(** X2: for a group with rows and 0/1 clicks, the [CTR] column is the
    click sum over the number of rows, while the click probability of
    Approach 1 is the click sum over the number of distinct users; the
    users are at most as many as the rows, and with at least one click
    the two rates are equal exactly when no user has two rows. *)
Theorem CTR_divides_by_rows_not_users (df : DataFrame) (g : string) :
  let rows := groupby df g in
  rows <> [] -> binary (map click rows) ->
  (Z.of_nat (List.length rows) <= Int64.max_signed)%Z ->
  exists c t,
    dfCounts df g = Some c /\ CTR_table df g = Some t /\
    (1 <= users c <= Z.of_nat (List.length rows))%Z /\
    (0 <= clicks c <= Z.of_nat (List.length rows))%Z /\
    CTR t = Fin (IZR (clicks c) / IZR (Z.of_nat (List.length rows))) /\
    p_hat (clicks c) (users c) = Fin (IZR (clicks c) / IZR (users c)) /\
    ((0 < clicks c)%Z ->
     (CTR t = p_hat (clicks c) (users c) <-> NoDup (map user_id rows))).
Proof.
  intros rows Hne Hbin Hmax.
  assert (Hx : map click rows <> [])
    by (destruct rows; [contradiction | discriminate]).
  assert (Hlen : List.length (map click rows) = List.length rows)
    by apply length_map.
  destruct (fold_int64_add_binary (map click rows) 0 Hbin) as [Hsum Hb];
    [lia | rewrite Hlen; lia | ].
  rewrite Hlen in Hb.
  fold (int64_sum (map click rows)) in Hsum.
  assert (HS : IZR (int64_sum (map click rows)) = Rsum (map IZR (map click rows)))
    by (rewrite Hsum; apply IZR_fold_add).
  rewrite <- Hsum in Hb.
  pose proof (nunique_le_length (map user_id rows)) as Hle.
  rewrite length_map in Hle.
  assert (Hu : (1 <= nunique (map user_id rows))%Z)
    by (apply nunique_pos; destruct rows; [contradiction | discriminate]).
  pose proof (length_pos _ rows Hne) as Hn.
  assert (Hur : 0 < IZR (nunique (map user_id rows))) by (apply IZR_lt; lia).
  exists {| users := nunique (map user_id rows);
            clicks := int64_sum (map click rows) |}.
  exists {| CTR := mean (map click rows);
            std_deviation := std_dev (map click rows);
            std_error := std_err (map click rows) |}.
  cbn [users clicks CTR].
  assert (Hctr : mean (map click rows)
                 = Fin (IZR (int64_sum (map click rows))
                        / IZR (Z.of_nat (List.length rows))))
    by (rewrite mean_fin, Hlen, HS by assumption; reflexivity).
  assert (Hp : p_hat (int64_sum (map click rows)) (nunique (map user_id rows))
               = Fin (IZR (int64_sum (map click rows))
                      / IZR (nunique (map user_id rows))))
    by (apply p_hat_fin; lia).
  repeat split; try assumption; try lia.
  - unfold dfCounts. fold rows. destruct rows; [contradiction | reflexivity].
  - unfold CTR_table. fold rows. destruct rows; [contradiction | reflexivity].
  - intros Heq. rewrite Hctr, Hp in Heq. injection Heq as Heq.
    apply nunique_eq_length_iff. rewrite length_map. apply eq_IZR.
    assert (Hc : 0 < IZR (int64_sum (map click rows))) by (apply IZR_lt; lia).
    apply (Rmult_eq_reg_l (IZR (int64_sum (map click rows)))); [ | lra].
    apply (f_equal (fun v => v * IZR (Z.of_nat (List.length rows))
                             * IZR (nunique (map user_id rows)))) in Heq.
    field_simplify in Heq; lra.
  - intros Hnd. rewrite Hctr, Hp. f_equal. f_equal. f_equal.
    symmetry. rewrite <- (length_map user_id). now apply nunique_eq_length_iff.
Qed.

Lemma CTR_divides_by_rows_not_users_witness :
  exists c t,
    dfCounts repeat_visit "con" = Some c /\
    CTR_table repeat_visit "con" = Some t /\
    (users c = 1)%Z /\ (clicks c = 1)%Z /\
    CTR t = Fin (1 / 2) /\ p_hat (clicks c) (users c) = Fin (1 / 1).
Proof.
  destruct (CTR_divides_by_rows_not_users repeat_visit "con")
    as (c & t & Hc & Ht & _ & _ & Hctr & Hp & _).
  - discriminate.
  - unfold binary. cbn. repeat (apply Forall_cons; [lia | ]). apply Forall_nil.
  - cbn. unfold Int64.max_signed. lia.
  - exists c, t. injection Hc as <-. cbn [users clicks] in *.
    repeat split; try reflexivity; assumption.
Defined.
End Denominators.

(* ================================================================= *)
(** ** The columns of a 0/1 outcome *)

Section BinaryColumn.
Local Open Scope R_scope.

Lemma sqrt_quarter : sqrt (1 / 4) = 1 / 2.
Proof.
  replace (1 / 4) with ((1 / 2) * (1 / 2)) by lra. apply sqrt_square. lra.
Qed.

(** [stats.sem] of a column of at least two values. *)
Lemma std_err_fin (x : list Z) (s : R) :
  (2 <= List.length x)%nat -> std_dev x = Fin s ->
  std_err x = Fin (s / sqrt (IZR (Z.of_nat (List.length x)))).
Proof.
  intros Hx Hs. unfold std_err.
  destruct (Nat.leb_spec (List.length x) 1) as [Hle | _]; [lia | ].
  rewrite Hs. xops. unfold X.of_int.
  assert (Hn : 0 < IZR (Z.of_nat (List.length x))) by (apply IZR_lt; lia).
  rewrite xsqrt_fin by lra. apply xdiv_fin.
  apply Rgt_not_eq, sqrt_lt_R0. exact Hn.
Qed.

(** [stats.sem] of a single value. *)
Lemma std_err_single (x : list Z) :
  List.length x = 1%nat -> std_err (F:=xreal) x = NaN.
Proof.
  intros Hx. unfold std_err. rewrite Hx. cbn [Nat.leb].
  xops. unfold X.of_int. cbn [X.div].
  now rewrite !Reqb_true by reflexivity.
Qed.

(** X3: for a group with rows and 0/1 clicks, the [CTR] column [m] lies
    between 0 and 1 and the [std_deviation] column is [sqrt(m * (1 - m))],
    which is at most one half.  For a group of at least two rows the
    [std_error] column is that over the square root of the number of
    rows; for a group of a single row it is NaN. *)
Theorem binary_std_deviation (df : DataFrame) (g : string) :
  let rows := groupby df g in
  rows <> [] -> binary (map click rows) ->
  exists t m,
    CTR_table df g = Some t /\
    CTR t = Fin m /\ 0 <= m <= 1 /\
    std_deviation t = Fin (sqrt (m * (1 - m))) /\
    sqrt (m * (1 - m)) <= 1 / 2 /\
    ((2 <= List.length rows)%nat ->
     std_error t
     = Fin (sqrt (m * (1 - m)) / sqrt (IZR (Z.of_nat (List.length rows))))) /\
    (List.length rows = 1%nat -> std_error t = NaN).
Proof.
  intros rows Hne Hbin.
  assert (Hx : map click rows <> [])
    by (destruct rows; [contradiction | discriminate]).
  assert (Hlen : List.length (map click rows) = List.length rows)
    by apply length_map.
  pose proof (length_pos _ rows Hne) as Hn.
  pose proof (Rsum_binary_bounds _ Hbin) as Hb. rewrite Hlen in Hb.
  set (n := IZR (Z.of_nat (List.length rows))) in *.
  set (m := Rsum (map IZR (map click rows)) / n).
  assert (Hm : 0 <= m <= 1).
  { unfold m. split.
    - apply Rmult_le_pos; [lra | left; now apply Rinv_0_lt_compat].
    - apply (Rmult_le_reg_r n); [lra | ].
      unfold Rdiv. rewrite Rmult_assoc, Rinv_l; lra. }
  assert (Hmean : mean (map click rows) = Fin m)
    by (rewrite mean_fin, Hlen by assumption; reflexivity).
  assert (Hstd : std_dev (map click rows) = Fin (sqrt (m * (1 - m)))).
  { rewrite (std_dev_fin _ Hx). cbv zeta.
    rewrite Hlen, Rsum_sq_binary, Hlen by assumption. fold n. fold m.
    f_equal. f_equal. unfold m. field. lra. }
  exists {| CTR := mean (map click rows);
            std_deviation := std_dev (map click rows);
            std_error := std_err (map click rows) |}, m.
  cbn [CTR std_deviation std_error].
  repeat split; try assumption; try lra.
  - unfold CTR_table. fold rows. destruct rows; [contradiction | reflexivity].
  - rewrite <- sqrt_quarter. apply sqrt_le_1_alt.
    pose proof (Rle_0_sqr (m - 1 / 2)) as Hsq. unfold Rsqr in Hsq. lra.
  - intros H2. rewrite <- Hlen in H2.
    rewrite (std_err_fin _ _ H2 Hstd), Hlen. reflexivity.
  - intros H1. apply std_err_single. now rewrite Hlen.
Qed.

Lemma binary_std_deviation_witness :
  exists t m,
    CTR_table repeat_visit "con" = Some t /\
    CTR t = Fin m /\ 0 <= m <= 1 /\
    std_deviation t = Fin (sqrt (m * (1 - m))) /\
    sqrt (m * (1 - m)) <= 1 / 2 /\
    std_error t = Fin (sqrt (m * (1 - m)) / sqrt 2).
Proof.
  destruct (binary_std_deviation repeat_visit "con")
    as (t & m & Ht & Hc & Hm & Hs & Hh & He & _).
  - discriminate.
  - unfold binary. cbn. repeat (apply Forall_cons; [lia | ]). apply Forall_nil.
  - exists t, m. repeat split; try assumption; try apply Hm.
    apply He. cbn. lia.
Defined.

(** A group of one row: the standard error is NaN. *)
Lemma single_row_std_error :
  exists t, CTR_table repeat_visit "exp" = Some t /\ std_error t = NaN.
Proof.
  exists {| CTR := mean [1%Z]; std_deviation := std_dev [1%Z];
            std_error := std_err [1%Z] |}.
  split; [reflexivity | ]. cbn [std_error]. now apply std_err_single.
Qed.

End BinaryColumn.

(* ================================================================= *)
(** ** The range of the pooled rate and of the statistic *)

Section Approach1More.
Local Open Scope R_scope.

(** The sign of a quotient with a positive divisor. *)
Lemma div_pos_sign (a s : R) :
  0 < s -> (a / s < 0 <-> a < 0) /\ (a / s = 0 <-> a = 0).
Proof.
  intros Hs. assert (Hi : 0 < / s) by now apply Rinv_0_lt_compat.
  assert (Ha : a = a / s * s) by (field; lra).
  unfold Rdiv in *. repeat split; intros H.
  - rewrite Ha. nra.
  - nra.
  - rewrite Ha, H. lra.
  - rewrite H. lra.
Qed.

(** X4: with users in both groups the pooled click probability lies
    between the click probabilities of the two groups. *)
Theorem pooled_rate_between_group_rates
  (X_con X_exp N_con N_exp : Z) (alpha delta : xreal) :
  (0 < N_con)%Z -> (0 < N_exp)%Z ->
  Int64.in_range (N_con + N_exp) -> Int64.in_range (X_con + X_exp) ->
  let r := run_approach1 X_con X_exp N_con N_exp alpha delta in
  exists pc pe p,
    v_p_con_hat r = Fin pc /\ v_p_exp_hat r = Fin pe /\
    v_p_pooled_hat r = Fin p /\ Rmin pc pe <= p <= Rmax pc pe.
Proof.
  intros Hc He HN HX r.
  exists (IZR X_con / IZR N_con), (IZR X_exp / IZR N_exp),
    ((IZR X_con + IZR X_exp) / (IZR N_con + IZR N_exp)).
  repeat split; try (apply p_hat_fin; assumption);
    try (apply p_pooled_hat_fin; assumption).
  all: apply IZR_lt in Hc, He.
  all: set (m := IZR N_con) in *; set (n := IZR N_exp) in *.
  all: set (pc := IZR X_con / m); set (pe := IZR X_exp / n).
  all: assert (Hw : 0 < / (m + n)) by (apply Rinv_0_lt_compat; lra).
  all: assert (Hp : (IZR X_con + IZR X_exp) / (m + n)
                    = pc + n * / (m + n) * (pe - pc))
         by (unfold pc, pe; field; lra).
  all: assert (Hq : (IZR X_con + IZR X_exp) / (m + n)
                    = pe + m * / (m + n) * (pc - pe))
         by (unfold pc, pe; field; lra).
  all: assert (0 < n * / (m + n)) by (apply Rmult_lt_0_compat; lra).
  all: assert (0 < m * / (m + n)) by (apply Rmult_lt_0_compat; lra).
  - unfold Rmin. destruct (Rle_dec pc pe); [rewrite Hp | rewrite Hq]; nra.
  - unfold Rmax. destruct (Rle_dec pc pe); [rewrite Hq | rewrite Hp]; nra.
Qed.

Lemma pooled_rate_between_group_rates_witness :
  exists pc pe p,
    v_p_con_hat (run_approach1 1580 1850 40000 40000 alpha delta) = Fin pc /\
    v_p_exp_hat (run_approach1 1580 1850 40000 40000 alpha delta) = Fin pe /\
    v_p_pooled_hat (run_approach1 1580 1850 40000 40000 alpha delta) = Fin p /\
    Rmin pc pe <= p <= Rmax pc pe.
Proof.
  apply (pooled_rate_between_group_rates 1580 1850 40000 40000 alpha delta);
    [lia | lia | int64_range | int64_range].
Defined.

(** X5: on two valid groups the standard error is a finite number that is
    not negative, never NaN.  The test statistic is a finite number when
    some but not all users clicked, negative exactly when the control
    rate is below the experimental one and zero exactly when the rates
    are equal; it is NaN in every other case. *)
Theorem test_statistic_finite_iff
  (X_con X_exp N_con N_exp : Z) (alpha delta : xreal) :
  valid_group N_con X_con -> valid_group N_exp X_exp ->
  Int64.in_range (N_con + N_exp) ->
  let r := run_approach1 X_con X_exp N_con N_exp alpha delta in
  let rate_con := IZR X_con / IZR N_con in
  let rate_exp := IZR X_exp / IZR N_exp in
  (exists s, v_SE r = Fin s /\ 0 <= s) /\
  ((0 < X_con + X_exp < N_con + N_exp)%Z ->
   exists z, v_Test_stat r = Fin z /\
     (z < 0 <-> rate_con < rate_exp) /\ (z = 0 <-> rate_con = rate_exp)) /\
  (~ (0 < X_con + X_exp < N_con + N_exp)%Z -> v_Test_stat r = NaN).
Proof.
  intros Vc Ve HN r rate_con rate_exp.
  pose proof (valid_sum_in_range _ _ _ _ Vc Ve HN) as HX.
  pose proof (degenerate_run X_con X_exp N_con N_exp alpha delta Vc Ve HN)
    as [Hiff Hnan].
  destruct Vc as [Hc [Hc0 Hc1]], Ve as [He [He0 He1]].
  set (p := (IZR X_con + IZR X_exp) / (IZR N_con + IZR N_exp)).
  set (v := p * (1 - p) * (1 / IZR N_con + 1 / IZR N_exp)).
  assert (Hnondeg : (0 < X_con + X_exp < N_con + N_exp)%Z -> 0 < v)
    by (intros Hd; apply pooled_variance_pos; assumption).
  assert (Hdeg : ~ (0 < X_con + X_exp < N_con + N_exp)%Z -> p = 0 \/ p = 1).
  { intros Hd. unfold p.
    destruct (Z.eq_dec (X_con + X_exp) 0) as [E | E].
    - left. rewrite <- plus_IZR, E. unfold Rdiv. apply Rmult_0_l.
    - right. assert (E' : (X_con + X_exp = N_con + N_exp)%Z) by lia.
      rewrite <- !plus_IZR, E'. apply Rinv_r. apply not_0_IZR. lia. }
  assert (Hse : v_SE r = X.sqrt (Fin v)) by (apply run_SE; assumption).
  repeat split.
  - destruct (Z_lt_dec 0 (X_con + X_exp)) as [H0 | H0];
      [destruct (Z_lt_dec (X_con + X_exp) (N_con + N_exp)) as [H1 | H1] | ].
    + exists (sqrt v). split; [ | apply sqrt_pos].
      apply run_SE_pos; try assumption. apply Hnondeg. lia.
    + exists 0. split; [ | lra]. apply Hiff.
      unfold r, run_approach1; cbn [v_p_pooled_hat].
      rewrite p_pooled_hat_fin by assumption. fold p.
      destruct (Hdeg ltac:(lia)) as [-> | ->]; [now left | now right].
    + exists 0. split; [ | lra]. apply Hiff.
      unfold r, run_approach1; cbn [v_p_pooled_hat].
      rewrite p_pooled_hat_fin by assumption. fold p.
      destruct (Hdeg ltac:(lia)) as [-> | ->]; [now left | now right].
  - intros Hd. specialize (Hnondeg Hd).
    exists ((rate_con - rate_exp) / sqrt v). split.
    + apply run_Test_stat_pos; assumption.
    + destruct (div_pos_sign (rate_con - rate_exp) (sqrt v)) as [Hlt Heq];
        [now apply sqrt_lt_R0 | ].
      split; [rewrite Hlt | rewrite Heq]; split; lra.
  - intros Hd. apply Hnan. apply Hiff.
    unfold r, run_approach1; cbn [v_p_pooled_hat].
    rewrite p_pooled_hat_fin by assumption. fold p.
    destruct (Hdeg Hd) as [-> | ->]; [now left | now right].
Qed.

Lemma test_statistic_finite_iff_witness :
  exists z, v_Test_stat (run_approach1 1 2 3 3 alpha delta) = Fin z /\ z < 0.
Proof.
  destruct (test_statistic_finite_iff 1 2 3 3 alpha delta) as (_ & Hfin & _);
    try (unfold valid_group; lia); [int64_range | ].
  destruct Hfin as (z & Hz & Hlt & _); [lia | ].
  exists z. split; [exact Hz | ]. apply Hlt. lra.
Defined.
End Approach1More.

(* ================================================================= *)
(** ** The p-value as a function of the statistic *)

Section PValue.
Local Open Scope R_scope.

Lemma norm_pdf_pos (t : R) : 0 < X.norm_pdf t.
Proof.
  unfold X.norm_pdf. apply Rdiv_lt_0_compat; [apply exp_pos | ].
  apply sqrt_lt_R0. pose proof PI_RGT_0. lra.
Qed.

(** The mass between two points is the integral of the density. *)
Lemma Phi_diff (a b : R) :
  X.Phi b - X.Phi a = RiemannInt (X.norm_pdf_integrable a b).
Proof.
  unfold X.Phi.
  rewrite <- (RiemannInt_P26 (X.norm_pdf_integrable 0 a)
                (X.norm_pdf_integrable a b) (X.norm_pdf_integrable 0 b)).
  lra.
Qed.

(** The distribution function does not decrease. *)
Lemma Phi_increasing (a b : R) : a <= b -> X.Phi a <= X.Phi b.
Proof.
  intros Hab.
  assert (Hz : Riemann_integrable (fct_cte 0) a b)
    by apply RiemannInt_P14.
  assert (Hpos : RiemannInt Hz <= RiemannInt (X.norm_pdf_integrable a b)).
  { apply RiemannInt_P19; [exact Hab | ].
    intros x _. unfold fct_cte. left. apply norm_pdf_pos. }
  rewrite RiemannInt_P15, <- Phi_diff in Hpos. lra.
Qed.

(** On an interval of positive length the density stays above a positive
    constant, so the mass of the interval is positive. *)
Lemma Phi_strictly_increasing (a b : R) : a < b -> X.Phi a < X.Phi b.
Proof.
  intros Hab.
  set (M := Rmax (Rabs a) (Rabs b)).
  set (c := X.norm_pdf M).
  assert (Hc : 0 < c) by apply norm_pdf_pos.
  assert (Hk : Riemann_integrable (fct_cte c) a b) by apply RiemannInt_P14.
  assert (Hle : RiemannInt Hk <= RiemannInt (X.norm_pdf_integrable a b)).
  { apply RiemannInt_P19; [lra | ].
    intros x Hx. unfold fct_cte, c, X.norm_pdf.
    apply Rmult_le_compat_r.
    - left. apply Rinv_0_lt_compat, sqrt_lt_R0. pose proof PI_RGT_0. lra.
    - assert (HxM : Rabs x <= M).
      { unfold M. apply Rabs_le.
        pose proof (Rmax_l (Rabs a) (Rabs b)). pose proof (Rmax_r (Rabs a) (Rabs b)).
        pose proof (Rle_abs b). pose proof (Rle_abs (- a)).
        rewrite Rabs_Ropp in *. lra. }
      assert (HM : 0 <= M) by (pose proof (Rabs_pos x); lra).
      assert (Hsq : x * x <= M * M).
      { rewrite <- (Rabs_right M) by lra.
        replace (x * x) with (Rabs x * Rabs x)
          by (rewrite <- Rabs_mult; apply Rabs_right, Rle_ge, Rle_0_sqr).
        rewrite (Rabs_right M) by lra.
        apply Rmult_le_compat; try apply Rabs_pos; assumption. }
      destruct (Req_dec_T (x * x) (M * M)) as [E | E].
      + rewrite E. lra.
      + left. apply exp_increasing. lra. }
  rewrite RiemannInt_P15, <- Phi_diff in Hle.
  assert (0 < c * (b - a)) by (apply Rmult_lt_0_compat; lra).
  lra.
Qed.

Lemma Phi_le_iff (a b : R) : X.Phi a <= X.Phi b <-> a <= b.
Proof.
  split; [ | apply Phi_increasing].
  intros Hp. destruct (Rle_dec a b) as [Hab | Hab]; [exact Hab | ].
  assert (Hlt : X.Phi b < X.Phi a) by (apply Phi_strictly_increasing; lra).
  lra.
Qed.

Lemma p_value_fin (z : R) : p_value (Fin z) = Fin (2 * (1 - X.Phi (Rabs z))).
Proof. reflexivity. Qed.

(** X6: the p-value of a finite statistic does not increase when the
    absolute value of the statistic grows, is at most 1, and is 1 only
    for a statistic of 0; a result that is significant stays significant
    for every statistic of a larger absolute value. *)
Theorem p_value_decreases_with_abs (z1 z2 a : R) :
  Rabs z1 <= Rabs z2 ->
  exists p1 p2,
    p_value (Fin z1) = Fin p1 /\ p_value (Fin z2) = Fin p2 /\
    p2 <= p1 /\ p1 <= 1 /\ (p1 = 1 <-> z1 = 0) /\
    (statistically_significant (p_value (Fin z1)) (Fin a) = true ->
     statistically_significant (p_value (Fin z2)) (Fin a) = true).
Proof.
  intros Hz.
  exists (2 * (1 - X.Phi (Rabs z1))), (2 * (1 - X.Phi (Rabs z2))).
  pose proof (Phi_increasing _ _ Hz) as H12.
  pose proof (Phi_increasing 0 (Rabs z1) (Rabs_pos z1)) as H01.
  rewrite Phi_0 in H01.
  repeat split; try lra.
  - intros Hp. destruct (Req_dec_T z1 0) as [E | E]; [exact E | exfalso].
    pose proof (Phi_strictly_increasing 0 (Rabs z1) (Rabs_pos_lt z1 E)) as Hs.
    rewrite Phi_0 in Hs. lra.
  - intros ->. rewrite Rabs_R0, Phi_0. lra.
  - rewrite !p_value_fin. unfold statistically_significant. xops. cbn [X.leb].
    rewrite !Rleb_iff. lra.
Qed.

Lemma p_value_decreases_with_abs_witness :
  exists p1 p2,
    p_value (Fin 0) = Fin p1 /\ p_value (Fin (- 3)) = Fin p2 /\
    p2 <= p1 /\ p1 <= 1 /\ (p1 = 1 <-> 0 = 0) /\
    (statistically_significant (p_value (Fin 0)) alpha = true ->
     statistically_significant (p_value (Fin (- 3))) alpha = true).
Proof.
  rewrite alpha_fin.
  apply (p_value_decreases_with_abs 0 (- 3) (5 / 100)).
  rewrite Rabs_R0. apply Rabs_pos.
Defined.
End PValue.

(* ================================================================= *)
(** ** The shaded rejection region *)

Section Rejection.
Local Open Scope R_scope.

Lemma rejection_region_fin (z zc : R) :
  rejection_region (Fin z) (Fin zc) = X.Rltb zc z || X.Rltb z (- zc).
Proof. reflexivity. Qed.

(** X7: when [Z_crit >= 0] is the point where the distribution function
    reaches [1 - alpha/2], the result is significant exactly when
    [|Test_stat| >= Z_crit], and the statistic lies in the shaded
    rejection region exactly when [|Test_stat| > Z_crit]: the region
    implies significance, and a statistic on its border is significant
    without being in the region. *)
Theorem rejection_region_and_p_value (z zc a : R) :
  0 <= zc -> X.Phi zc = 1 - a / 2 ->
  (statistically_significant (p_value (Fin z)) (Fin a) = true
   <-> zc <= Rabs z) /\
  (rejection_region (Fin z) (Fin zc) = true <-> zc < Rabs z) /\
  (rejection_region (Fin z) (Fin zc) = true ->
   statistically_significant (p_value (Fin z)) (Fin a) = true) /\
  (Rabs z = zc ->
   statistically_significant (p_value (Fin z)) (Fin a) = true /\
   rejection_region (Fin z) (Fin zc) = false).
Proof.
  intros Hzc Hq.
  assert (Hsig : statistically_significant (p_value (Fin z)) (Fin a) = true
                 <-> zc <= Rabs z).
  { rewrite p_value_fin. unfold statistically_significant. xops. cbn [X.leb].
    rewrite Rleb_iff, <- (Phi_le_iff zc (Rabs z)), Hq. split; lra. }
  assert (Hrej : rejection_region (Fin z) (Fin zc) = true <-> zc < Rabs z).
  { rewrite rejection_region_fin. unfold Rabs.
    destruct (Rcase_abs z); decide_reals; cbn; split; intros; try easy; lra. }
  split; [exact Hsig | split; [exact Hrej | split]].
  - intros Hr. apply Hsig. apply Hrej in Hr. lra.
  - intros Hb. split; [apply Hsig; lra | ].
    destruct (rejection_region (Fin z) (Fin zc)); [ | reflexivity].
    pose proof (proj1 Hrej eq_refl). lra.
Qed.

Lemma rejection_region_and_p_value_witness :
  statistically_significant (p_value (Fin 0)) (Fin 1) = true /\
  rejection_region (Fin 0) (Fin 0) = false.
Proof.
  refine (proj2 (proj2 (proj2
            (rejection_region_and_p_value 0 0 1 _ _))) _).
  - lra.
  - rewrite Phi_0. lra.
  - apply Rabs_R0.
Defined.
End Rejection.

(* ================================================================= *)
(** ** Order and width of the interval *)

Section IntervalMore.
Local Open Scope R_scope.

(** Rounding to the nearest integer keeps the order. *)
Lemma nearest_even_monotone (r r' : R) :
  r <= r' -> (X.nearest_even r <= X.nearest_even r')%Z.
Proof.
  intros Hr.
  pose proof (Rabs_le_inv _ _ (nearest_even_close r)) as H1.
  pose proof (Rabs_le_inv _ _ (nearest_even_close r')) as H2.
  destruct (Z_le_gt_dec (X.nearest_even r) (X.nearest_even r')) as [Hle | Hgt];
    [exact Hle | exfalso].
  assert (Hz : IZR (X.nearest_even r' + 1) <= IZR (X.nearest_even r))
    by (apply IZR_le; lia).
  rewrite plus_IZR in Hz.
  assert (E : r = r') by lra.
  subst r'. lia.
Qed.

Lemma round3_monotone (x y : R) : x <= y -> X.round3 x <= X.round3 y.
Proof.
  intros Hxy. unfold X.round3.
  assert (H : IZR (X.nearest_even (x * 1000)) <= IZR (X.nearest_even (y * 1000)))
    by (apply IZR_le, nearest_even_monotone; lra).
  lra.
Qed.

(** X8: when [SE * Z_crit] is not negative, the rounded lower bound is at
    most the rounded difference of the rates, which is at most the
    rounded upper bound, and the interval is at most 0.001 wider than
    twice [SE * Z_crit]. *)
Theorem CI_bounds_ordered (pc pe se zc : R) :
  0 <= se * zc ->
  exists l u,
    CI (Fin pc) (Fin pe) (Fin se) (Fin zc) = (Fin l, Fin u) /\
    l <= X.round3 (pe - pc) <= u /\
    u - l <= 2 * (se * zc) + 1 / 1000.
Proof.
  intros Hm.
  exists (X.round3 ((pe - pc) - se * zc)), (X.round3 ((pe - pc) + se * zc)).
  split; [apply CI_fin | ].
  pose proof (Rabs_le_inv _ _ (round3_close ((pe - pc) - se * zc))).
  pose proof (Rabs_le_inv _ _ (round3_close ((pe - pc) + se * zc))).
  repeat split; try (apply round3_monotone; lra). lra.
Qed.

Lemma CI_bounds_ordered_witness :
  exists l u,
    CI (Fin (1 / 10)) (Fin (3 / 10)) (Fin (1 / 100)) (Fin 2) = (Fin l, Fin u) /\
    l <= X.round3 (3 / 10 - 1 / 10) <= u /\
    u - l <= 2 * (1 / 100 * 2) + 1 / 1000.
Proof. apply CI_bounds_ordered. lra. Defined.

(** X9: with a positive standard error and [delta] above 0.0005, a result
    that is reported as practically significant has a finite test
    statistic below [- Z_crit]: the condition
    [(x > Z_crit) | (x < -Z_crit)] of the plot holds at the statistic,
    and when [Z_crit] is the point where the distribution function
    reaches [1 - alpha/2], the result is statistically significant as
    well.  Nothing is said of the drawn area, which the plot samples
    between -3 and 3 only. *)
Theorem practical_significance_implies_rejection (pc pe se zc dl a : R) :
  0 < se -> 1 / 2000 < dl ->
  practically_significant
    (lower_bound_CI (CI (Fin pc) (Fin pe) (Fin se) (Fin zc))) (Fin dl) = true ->
  exists z,
    Test_stat (Fin pc) (Fin pe) (Fin se) = Fin z /\ z < - zc /\
    rejection_region (Fin z) (Fin zc) = true /\
    (X.Phi zc = 1 - a / 2 ->
     statistically_significant (p_value (Fin z)) (Fin a) = true).
Proof.
  intros Hse Hdl Hps.
  rewrite CI_fin in Hps. unfold lower_bound_CI, practically_significant in Hps.
  cbn [fst] in Hps. xops. cbn [X.leb] in Hps. apply Rleb_iff in Hps.
  pose proof (Rabs_le_inv _ _ (round3_close ((pe - pc) - se * zc))) as Hr.
  assert (Hl : 0 < (pe - pc) - se * zc) by lra.
  exists ((pc - pe) / se).
  assert (Hz : (pc - pe) / se < - zc).
  { apply (Rmult_lt_reg_r se); [exact Hse | ].
    unfold Rdiv. rewrite Rmult_assoc, Rinv_l; lra. }
  split; [ | split; [exact Hz | split]].
  - unfold Test_stat. xops. cbn [X.sub X.opp X.add]. apply xdiv_fin. lra.
  - rewrite rejection_region_fin. rewrite (Rltb_true _ (- zc)) by exact Hz.
    apply orb_true_r.
  - intros Hq. rewrite p_value_fin. unfold statistically_significant.
    xops. cbn [X.leb]. apply Rleb_true.
    assert (Habs : zc <= Rabs ((pc - pe) / se)).
    { pose proof (Rle_abs (- ((pc - pe) / se))) as Hab.
      rewrite Rabs_Ropp in Hab. lra. }
    apply Phi_increasing in Habs. lra.
Qed.

Lemma practical_significance_implies_rejection_witness :
  exists z,
    Test_stat (Fin (1 / 10)) (Fin (3 / 10)) (Fin (1 / 100)) = Fin z /\
    z < - 1 /\ rejection_region (Fin z) (Fin 1) = true /\
    statistically_significant (p_value (Fin z)) (Fin (2 * (1 - X.Phi 1))) = true.
Proof.
  destruct (practical_significance_implies_rejection
              (1 / 10) (3 / 10) (1 / 100) 1 (1 / 10) (2 * (1 - X.Phi 1)))
    as (z & Hz & Hlt & Hrej & Hsig); try lra.
  - rewrite CI_fin. unfold lower_bound_CI, practically_significant.
    cbn [fst]. xops. cbn [X.leb]. apply Rleb_true.
    pose proof (Rabs_le_inv _ _ (round3_close (3 / 10 - 1 / 10 - 1 / 100 * 1))).
    lra.
  - exists z. repeat split; try assumption. apply Hsig. lra.
Defined.
End IntervalMore.

(* ================================================================= *)
(** ** How the notebook ends *)

Section NotebookEnd.
Local Open Scope R_scope.

(** X10: [effect] stays unassigned exactly when [d] is NaN or below zero
    (minus infinity included); an infinite positive [d] is a large
    effect. *)
Theorem effect_unassigned_iff (x : xreal) :
  (effect x = None <-> x = NaN \/ X.ltb x (Fin 0) = true) /\
  effect (Inf false) = Some "large effect size"%string.
Proof.
  split.
  - destruct x as [ | s | r].
    + rewrite effect_nan. split; [now left | reflexivity].
    + unfold effect. rewrite !dec_fin. xops. cbn [X.leb X.ltb].
      destruct s; cbn; split; intros H; try discriminate;
        try reflexivity; try (now right).
      destruct H; discriminate.
    + rewrite effect_fin. cbn [X.ltb]. split.
      * intros H. right. revert H. decide_reals; cbn; try discriminate; reflexivity.
      * intros [H | H]; [discriminate | ]. revert H.
        decide_reals; cbn; try discriminate; reflexivity.
  - unfold effect. rewrite !dec_fin. reflexivity.
Qed.

Lemma dfCounts_present (df : DataFrame) (g : string) :
  groupby df g <> [] ->
  dfCounts df g = Some {| users := n_users df g;
                          clicks := int64_sum (map click (groupby df g)) |}.
Proof.
  intros Hne. unfold dfCounts, n_users.
  destruct (groupby df g); [contradiction | reflexivity].
Qed.

Lemma CTR_table_present (df : DataFrame) (g : string) :
  groupby df g <> [] ->
  exists s e,
    0 <= s /\
    CTR_table df g = Some {| CTR := Fin (mean_click df g);
                             std_deviation := Fin s; std_error := e |}.
Proof.
  intros Hne.
  assert (Hx : map click (groupby df g) <> [])
    by (destruct (groupby df g); [contradiction | discriminate]).
  pose proof (mean_fin _ Hx) as Hm. rewrite length_map in Hm.
  pose proof (std_dev_fin _ Hx) as Hs. cbv zeta in Hs.
  eexists. exists (std_err (map click (groupby df g))).
  split; [ | unfold CTR_table;
             destruct (groupby df g) eqn:E; [contradiction | ];
             rewrite <- E in *; unfold mean_click; rewrite <- Hm, <- Hs;
             reflexivity ].
  apply sqrt_pos.
Qed.

(** The pooled standard deviation with one user in each group: [0 / 0]. *)
Lemma pooled_std_dev_single_users (sc se : R) :
  pooled_std_dev 1 1 (Fin sc) (Fin se) = NaN.
Proof.
  unfold pooled_std_dev.
  change (Int64.sub 1 1) with 0%Z.
  change (Int64.sub (Int64.add 1 1) 2) with 0%Z.
  xops. unfold X.of_int. cbn [X.mul X.add X.div].
  rewrite !Reqb_true by lra. reflexivity.
Qed.

(** The pooled standard deviation with more than two users in all. *)
Lemma pooled_std_dev_fin (N_con N_exp : Z) (sc se : R) :
  (1 <= N_con)%Z -> (1 <= N_exp)%Z -> (2 < N_con + N_exp)%Z ->
  Int64.in_range (N_con + N_exp) -> 0 <= sc -> 0 <= se ->
  exists p, 0 <= p /\ pooled_std_dev N_con N_exp (Fin sc) (Fin se) = Fin p.
Proof.
  intros Hc He Hsum HN Hsc Hse.
  unfold Int64.in_range, Int64.min_signed, Int64.max_signed in HN.
  eexists. split; [apply sqrt_pos | ].
  unfold pooled_std_dev, Int64.sub, Int64.add.
  rewrite (wrap_in_range (N_con + N_exp)) by int64_range.
  rewrite !wrap_in_range by int64_range.
  xops. unfold X.of_int. cbn [X.mul X.add].
  rewrite xdiv_fin by (apply not_0_IZR; lia).
  apply xsqrt_fin.
  assert (H1 : 0 <= IZR (N_con - 1)) by (apply IZR_le; lia).
  assert (H2 : 0 <= IZR (N_exp - 1)) by (apply IZR_le; lia).
  assert (H3 : 0 < IZR (N_con + N_exp - 2)) by (apply IZR_lt; lia).
  apply Rmult_le_pos; [ | left; now apply Rinv_0_lt_compat].
  apply Rplus_le_le_0_compat; apply Rmult_le_pos; assumption.
Qed.

Lemma effect_neg_inf : effect (Inf true) = None.
Proof. unfold effect. rewrite !dec_fin. reflexivity. Qed.

Lemma effect_pos_inf : effect (Inf false) = Some "large effect size"%string.
Proof. unfold effect. rewrite !dec_fin. reflexivity. Qed.

(** A negative difference of the rates never gets a category, whatever the
    counts are. *)
Lemma effect_of_lower_rate (N_con N_exp : Z) (mc me sc se : R) :
  (1 <= N_con)%Z -> (1 <= N_exp)%Z -> Int64.in_range (N_con + N_exp) ->
  0 <= sc -> 0 <= se -> me < mc ->
  effect (d (Fin mc) (Fin me) (pooled_std_dev N_con N_exp (Fin sc) (Fin se)))
  = None.
Proof.
  intros Hc He HN Hsc Hse Hlt.
  destruct (Z_lt_dec 2 (N_con + N_exp)) as [Hsum | Hsum].
  - destruct (pooled_std_dev_fin N_con N_exp sc se) as (p & Hp & ->);
      try assumption.
    unfold d. xops. cbn [X.sub X.opp X.add X.div].
    destruct (Req_dec_T p 0) as [-> | Hnz].
    + rewrite Reqb_true, Reqb_false, Rltb_true by lra. apply effect_neg_inf.
    + rewrite Reqb_false by exact Hnz. apply effect_negative.
      apply (proj2 (proj1 (div_pos_sign (me + - mc) p ltac:(lra)))). lra.
  - assert (N_con = 1 /\ N_exp = 1)%Z as [-> ->] by lia.
    rewrite pooled_std_dev_single_users.
    unfold d. xops. cbn [X.sub X.opp X.add X.div]. apply effect_nan.
Qed.

Lemma approach1_of_present (df : DataFrame) (alpha delta : xreal) :
  groupby df "con" <> [] -> groupby df "exp" <> [] ->
  exists a, approach1_of df alpha delta = Ok a.
Proof.
  intros Hc He. eexists. apply approach1_of_ok; apply dfCounts_present; assumption.
Qed.

(** X11: when both groups have rows and the mean of [click] is lower in
    the experimental group than in the control group, the notebook ends
    with [NameError] on [effect], whatever the other values are. *)
Theorem notebook_fails_when_experimental_is_lower
  (df : DataFrame) (alpha delta : xreal) :
  groupby df "con" <> [] -> groupby df "exp" <> [] ->
  Int64.in_range (n_users df "con" + n_users df "exp") ->
  mean_click df "exp" < mean_click df "con" ->
  notebook df alpha delta = Raise (NameError "effect").
Proof.
  intros Hc He HN Hlt. unfold notebook.
  destruct (approach1_of_present df alpha delta Hc He) as [a ->].
  cbn [bind]. unfold effect_size_of, loc.
  rewrite !dfCounts_present by assumption.
  destruct (CTR_table_present df "con" Hc) as (sc & ec & Hsc & ->).
  destruct (CTR_table_present df "exp" He) as (se & ee & Hse & ->).
  cbn [bind users]. unfold run_effect_size.
  cbn [v_effect std_deviation CTR].
  rewrite effect_of_lower_rate; try assumption; try reflexivity.
  - apply nunique_pos. destruct (groupby df "con"); [contradiction | discriminate].
  - apply nunique_pos. destruct (groupby df "exp"); [contradiction | discriminate].
Qed.

Lemma notebook_fails_when_experimental_is_lower_witness :
  notebook exp_lower alpha delta = Raise (NameError "effect").
Proof.
  apply notebook_fails_when_experimental_is_lower.
  - discriminate.
  - discriminate.
  - change (n_users exp_lower "con") with 2%Z.
    change (n_users exp_lower "exp") with 2%Z. int64_range.
  - unfold mean_click, Rsum. cbn. lra.
Defined.

Lemma n_users_present (df : DataFrame) (g : string) :
  (1 <= n_users df g)%Z -> groupby df g <> [].
Proof.
  unfold n_users. intros Hn E. rewrite E in Hn. cbn in Hn. lia.
Qed.

(** X12: with exactly one distinct user in each group the pooled standard
    deviation is [0 / 0], and the notebook ends with [NameError] on
    [effect]. *)
Theorem notebook_fails_with_one_user_per_group
  (df : DataFrame) (alpha delta : xreal) :
  n_users df "con" = 1%Z -> n_users df "exp" = 1%Z ->
  notebook df alpha delta = Raise (NameError "effect").
Proof.
  intros Nc Ne.
  assert (Hc : groupby df "con" <> []) by (apply n_users_present; lia).
  assert (He : groupby df "exp" <> []) by (apply n_users_present; lia).
  unfold notebook.
  destruct (approach1_of_present df alpha delta Hc He) as [a ->].
  cbn [bind]. unfold effect_size_of, loc.
  rewrite !dfCounts_present by assumption.
  destruct (CTR_table_present df "con" Hc) as (sc & ec & Hsc & ->).
  destruct (CTR_table_present df "exp" He) as (se & ee & Hse & ->).
  cbn [bind users]. unfold run_effect_size.
  cbn [v_effect std_deviation CTR].
  rewrite Nc, Ne, pooled_std_dev_single_users.
  unfold d. xops. cbn [X.sub X.opp X.add X.div]. now rewrite effect_nan.
Qed.

Lemma notebook_fails_with_one_user_per_group_witness :
  notebook double_click alpha delta = Raise (NameError "effect").
Proof.
  apply notebook_fails_with_one_user_per_group; reflexivity.
Defined.

(** Every finite [d] that is not negative gets a category. *)
Lemma effect_assigned (x : R) : 0 <= x -> exists s, effect (Fin x) = Some s.
Proof.
  intros Hx. rewrite effect_fin.
  decide_reals; cbn; eexists; reflexivity.
Qed.

Lemma effect_of_higher_rate (N_con N_exp : Z) (mc me sc se : R) :
  (1 <= N_con)%Z -> (1 <= N_exp)%Z -> (2 < N_con + N_exp)%Z ->
  Int64.in_range (N_con + N_exp) ->
  0 <= sc -> 0 <= se -> mc < me ->
  exists s,
    effect (d (Fin mc) (Fin me) (pooled_std_dev N_con N_exp (Fin sc) (Fin se)))
    = Some s.
Proof.
  intros Hc He Hsum HN Hsc Hse Hlt.
  destruct (pooled_std_dev_fin N_con N_exp sc se) as (p & Hp & ->);
    try assumption.
  unfold d. xops. cbn [X.sub X.opp X.add X.div].
  destruct (Req_dec_T p 0) as [-> | Hnz].
  - rewrite Reqb_true, Reqb_false, Rltb_false by lra.
    eexists. apply effect_pos_inf.
  - rewrite Reqb_false by exact Hnz. apply effect_assigned.
    apply Rmult_le_pos; [lra | left; apply Rinv_0_lt_compat; lra].
Qed.

(** X13: when both groups have rows, there are more than two distinct
    users in all and the mean of [click] is higher in the experimental
    group, the notebook runs to its end and prints a category. *)
Theorem notebook_reports_when_experimental_is_higher
  (df : DataFrame) (alpha delta : xreal) :
  groupby df "con" <> [] -> groupby df "exp" <> [] ->
  (2 < n_users df "con" + n_users df "exp")%Z ->
  Int64.in_range (n_users df "con" + n_users df "exp") ->
  mean_click df "con" < mean_click df "exp" ->
  exists a e s,
    notebook df alpha delta = Ok (a, e, s) /\ v_effect e = Some s.
Proof.
  intros Hc He Hsum HN Hlt. unfold notebook.
  destruct (approach1_of_present df alpha delta Hc He) as [a ->].
  cbn [bind]. unfold effect_size_of, loc.
  rewrite !dfCounts_present by assumption.
  destruct (CTR_table_present df "con" Hc) as (sc & ec & Hsc & ->).
  destruct (CTR_table_present df "exp" He) as (se & ee & Hse & ->).
  cbn [bind users]. unfold run_effect_size.
  cbn [v_effect std_deviation CTR].
  destruct (effect_of_higher_rate (n_users df "con") (n_users df "exp")
              (mean_click df "con") (mean_click df "exp") sc se)
    as [s Hs]; try assumption.
  - apply nunique_pos. destruct (groupby df "con"); [contradiction | discriminate].
  - apply nunique_pos. destruct (groupby df "exp"); [contradiction | discriminate].
  - rewrite Hs. cbn [read_effect bind]. do 3 eexists. split; reflexivity.
Qed.

Lemma notebook_reports_when_experimental_is_higher_witness :
  exists a e s,
    notebook exp_higher alpha delta = Ok (a, e, s) /\ v_effect e = Some s.
Proof.
  apply notebook_reports_when_experimental_is_higher.
  - discriminate.
  - discriminate.
  - change (n_users exp_higher "con") with 2%Z.
    change (n_users exp_higher "exp") with 2%Z. lia.
  - change (n_users exp_higher "con") with 2%Z.
    change (n_users exp_higher "exp") with 2%Z. int64_range.
  - unfold mean_click, Rsum. cbn. lra.
Defined.
End NotebookEnd.

(* ================================================================= *)
(** ** The cells run in binary64 *)

Section Binary64.
Local Open Scope float_scope.

(** The decimal literals of the notebook are the binary64 values that
    Python reads them as. *)
Example b64_literals :
  alpha = 0.05 /\ delta = 0.1 /\
  dec 2 1 = 0.2 /\ dec 5 1 = 0.5 /\ dec 8 1 = 0.8.
Proof. vm_compute. repeat split. Qed.

(** The counts of the specification's scenario: 1580 clicks of 40000 users
    in the control group, 1850 of 40000 in the experimental one, with the
    critical value of [alpha = 0.05]. *)
Example b64_scenario :
  let p_con_hat := p_hat 1580 40000 in
  let p_exp_hat := p_hat 1850 40000 in
  let p_pooled_hat := p_pooled_hat 1580 1850 40000 40000 in
  let SE := SE (pooled_variance p_pooled_hat 40000 40000) in
  p_con_hat = 0.0395 /\ p_exp_hat = 0.04625 /\
  p_pooled_hat = 0.042875 /\
  SE = 0.0014324233727323777 /\
  Test_stat p_con_hat p_exp_hat SE = -4.7122939547713694 /\
  CI p_con_hat p_exp_hat SE 1.959963984540054 = (0.004, 0.01).
Proof. vm_compute. repeat split. Qed.

(** The bounds of that interval before they are rounded. *)
Example b64_scenario_exact_bounds :
  let p_con_hat := p_hat 1580 40000 in
  let p_exp_hat := p_hat 1850 40000 in
  let SE := SE (pooled_variance (p_pooled_hat 1580 1850 40000 40000)
                  40000 40000) in
  (p_exp_hat - p_con_hat) - SE * 1.959963984540054 = 0.0039425017788311447 /\
  (p_exp_hat - p_con_hat) + SE * 1.959963984540054 = 0.0095574982211688534.
Proof. vm_compute. repeat split. Qed.

(** Nobody clicked: the standard error is zero and the statistic NaN. *)
Example b64_no_clicks :
  dfCounts no_clicks "con" = Some {| users := 2; clicks := 0 |} /\
  dfCounts no_clicks "exp" = Some {| users := 2; clicks := 0 |} /\
  let SE := SE (pooled_variance (p_pooled_hat 0 0 2 2) 2 2) in
  SE = 0 /\ PrimFloat.is_nan (Test_stat (p_hat 0 2) (p_hat 0 2) SE) = true.
Proof. vm_compute. repeat split. Qed.

Example b64_double_click :
  dfCounts double_click "con" = Some {| users := 1; clicks := 2 |} /\
  p_hat 2 1 = 2 /\
  PrimFloat.is_nan (SE (pooled_variance (p_pooled_hat 2 1 1 1) 1 1)) = true.
Proof. vm_compute. repeat split. Qed.

Example b64_effect :
  effect 0.19 = Some "little or no effect"%string /\
  effect 0.2 = Some "small effect size"%string /\
  effect 0.5 = Some "medium effect size"%string /\
  effect 0.8 = Some "large effect size"%string /\
  effect infinity = Some "large effect size"%string /\
  effect (-0.1) = None /\
  effect nan = None.
Proof. vm_compute. repeat split. Qed.

Example b64_no_clicks_effect :
  match effect_size_of (F:=float) no_clicks with
  | Ok e => PrimFloat.is_nan (v_d e) = true /\ v_effect e = None
            /\ read_effect (v_effect e) = Raise (NameError "effect")
  | Raise _ => False
  end.
Proof. vm_compute. repeat split. Qed.

Example b64_rounding :
  round3 0.0996 = 0.1 /\
  practically_significant (round3 0.0996) delta = true /\
  practically_significant 0.0996 delta = false.
Proof. vm_compute. repeat split. Qed.

Example b64_cohens_d :
  let pooled := pooled_std_dev 40000 40000 0.195 0.21 in
  pooled = 0.45000000000000001 /\ d 0.0395 0.04625 pooled = 0.014999999999999998
  /\ effect (d 0.0395 0.04625 pooled) = Some "little or no effect"%string.
Proof. vm_compute. repeat split. Qed.

(** The mask holds at the statistic of the scenario; at the critical value
    itself and at zero it does not. *)
Example b64_rejection_region :
  rejection_region (-4.7122939547713694) 1.959963984540054 = true /\
  rejection_region 1.959963984540054 1.959963984540054 = false /\
  rejection_region 0 1.959963984540054 = false.
Proof. vm_compute. repeat split. Qed.

(** A user with two rows: the [CTR] column is 1/2, the click probability
    of Approach 1 is 1. *)
Example b64_repeat_visit :
  CTR_table repeat_visit "con"
  = Some {| CTR := 0.5; std_deviation := 0.5;
            std_error := 0.35355339059327373 |} /\
  dfCounts repeat_visit "con" = Some {| users := 1; clicks := 1 |} /\
  p_hat 1 1 = 1.
Proof. vm_compute. repeat split. Qed.

(** The effect size of the two samples with two users per group. *)
Example b64_exp_lower :
  effect_size_of exp_lower
  = Ok {| v_pooled_std_dev := 0.5; v_d := -1; v_effect := None |}.
Proof. vm_compute. reflexivity. Qed.

Example b64_exp_higher :
  effect_size_of exp_higher
  = Ok {| v_pooled_std_dev := 0.5; v_d := 1;
          v_effect := Some "large effect size"%string |}.
Proof. vm_compute. reflexivity. Qed.

(** A group of one row: the standard error is NaN. *)
Example b64_single_row :
  match CTR_table (F:=float) repeat_visit "exp" with
  | Some t => CTR t = 1 /\ std_deviation t = 0 /\
              PrimFloat.is_nan (std_error t) = true
  | None => False
  end.
Proof. vm_compute. repeat split. Qed.

(** One user with two clicked rows against one user without a click: a
    zero standard error and an infinite statistic. *)
Example b64_repeat_click :
  dfCounts repeat_click "con" = Some {| users := 1; clicks := 2 |} /\
  dfCounts repeat_click "exp" = Some {| users := 1; clicks := 0 |} /\
  let SE := SE (pooled_variance (p_pooled_hat 2 0 1 1) 1 1) in
  SE = 0 /\ Test_stat (p_hat 2 1) (p_hat 0 1) SE = infinity.
Proof. vm_compute. repeat split. Qed.

(** One user per group: the pooled standard deviation is NaN. *)
Example b64_one_user_per_group :
  match effect_size_of (F:=float) double_click with
  | Ok e => PrimFloat.is_nan (v_pooled_std_dev e) = true /\ v_effect e = None
  | Raise _ => False
  end.
Proof. vm_compute. repeat split. Qed.

End Binary64.
